(** * codex-rtc: signed two-party chat over a PeerJS data connection

    A shallow embedding of [src/App.tsx].  The React component keeps its state
    in [useState] cells and two refs; its event handlers are modelled as
    transformers of one [World] record that also holds the transport's
    connection objects and a log of every call made to the two external
    collaborators (openpgp and PeerJS).

    The collaborators are not code of this repository: openpgp is an
    interface ([OpenPGP]) whose operations may throw, [JSON.stringify] is an
    interface method ([JSON]), and the clock and random source are read from
    a [Stamp] handed to each handler run. *)

From Stdlib Require Import Floats.
From stdpp Require Import base strings list pretty.

Local Open Scope string_scope.
Local Open Scope list_scope.
Set Warnings "-register-all".

(** ** JavaScript values *)

(** What the transport can deliver as [data], and what a property of such a
    value can hold: the values of the BinaryPack/JSON serialisations. *)
Inductive JsValue : Type :=
| JsUndefined
| JsNull
| JsBool (b : bool)
| JsNumber (x : float)
| JsString (s : string)
| JsArray (items : list JsValue)
| JsObject (props : list (string * JsValue)).

(** [typeof v === 'string'] *)
Definition typeof_string (v : JsValue) : bool :=
  match v with
  | JsString _ => true
  | _ => false
  end.

(** ToBoolean: [undefined], [null], [false], [0], [-0], [NaN] and the empty
    string are falsy; every object and array is truthy. *)
Definition truthy (v : JsValue) : bool :=
  match v with
  | JsUndefined | JsNull => false
  | JsBool b => b
  | JsNumber x => negb (PrimFloat.is_zero x || PrimFloat.is_nan x)
  | JsString s => negb (String.eqb s "")
  | JsArray _ | JsObject _ => true
  end.

(** Thrown values: a [TypeError] of the language, or an error of openpgp. *)
Inductive Exn : Type :=
| TypeError (msg : string)
| PgpError (msg : string).

(** Own property of an object literal, [undefined] when absent. *)
Fixpoint own_prop (props : list (string * JsValue)) (name : string) : JsValue :=
  match props with
  | [] => JsUndefined
  | (k, v) :: rest => if String.eqb k name then v else own_prop rest name
  end.

(** [v.name] for the three names the program reads ([text], [signature],
    [publicKey]): reading a property of [undefined] or [null] throws; none of
    the three is defined on a boolean, number, string or array. *)
Definition get_prop (v : JsValue) (name : string) : Exn + JsValue :=
  match v with
  | JsUndefined => inl (TypeError "Cannot read properties of undefined")
  | JsNull => inl (TypeError "Cannot read properties of null")
  | JsObject props => inr (own_prop props name)
  | JsBool _ | JsNumber _ | JsString _ | JsArray _ => inr JsUndefined
  end.

(** [a || b] on strings, as in [error.message || 'Connection error.']. *)
Definition or_else (a b : string) : string :=
  if String.eqb a "" then b else a.

(** [String.prototype.trim], on the ASCII white space characters (tab, line
    feed, vertical tab, form feed, carriage return, space). *)
Definition is_space (c : Ascii.ascii) : bool :=
  let n := Ascii.nat_of_ascii c in
  (Nat.leb 9 n && Nat.leb n 13) || Nat.eqb n 32.

Fixpoint trim_start (s : string) : string :=
  match s with
  | String c rest => if is_space c then trim_start rest else s
  | EmptyString => EmptyString
  end.

Fixpoint trim_end (s : string) : string :=
  match s with
  | String c rest =>
      match trim_end rest with
      | EmptyString => if is_space c then EmptyString else String c EmptyString
      | rest' => String c rest'
      end
  | EmptyString => EmptyString
  end.

Definition trim (s : string) : string := trim_end (trim_start s).

(** ** The data model of App.tsx *)

Record StoredKeypair : Type := {
  publicKeyArmored : string;
  privateKeyArmored : string
}.

Inductive Sender : Type := me | peer.

(** [ChatMessage]; [text] is declared a string, but the handler stores
    [payload.text] unchecked, so at run time it is whatever the wire held. *)
Record ChatMessage : Type := {
  id : string;
  sender : Sender;
  text : JsValue;
  timestamp : Z;
  verified : option bool
}.

(** [WireMessage], the object literal built by handleSendMessage. *)
Definition WireMessage (text signature publicKey : string) : JsValue :=
  JsObject [("text", JsString text);
            ("signature", JsString signature);
            ("publicKey", JsString publicKey)].

(** The readings addMessage takes from its environment: [Date.now()],
    [Math.random().toString(16).slice(2)] and [new Date()]. *)
Record Stamp : Type := {
  date_now : Z;
  random_hex : string;
  new_date : Z
}.

(** ** The transport's objects *)

Module DataConnection.
(** A PeerJS [DataConnection]: the remote identifier and the open flag. *)
Record t : Type := { peer : string; open : bool }.

Definition closed (k : t) : t := {| peer := peer k; open := false |}.
Definition opened (k : t) : t := {| peer := peer k; open := true |}.
End DataConnection.

(** A transport error: [error.message]. *)
Record TransportError : Type := { message : string }.

Inductive PgpCall : Type :=
| CallReadPrivateKey
| CallCreateMessage
| CallSign
| CallReadSignature
| CallReadKey
| CallVerify.

(** Calls made to the collaborators, in order. *)
Inductive Effect : Type :=
| Pgp (call : PgpCall)
| Send (connection : nat) (payload : JsValue)
| Close (connection : nat)
| Connect (target : string).

(** ** The world: React state, refs, transport objects, call log *)

Record World : Type := {
  peerRef : option string;
  connectionRef : option nat;
  peerId : string;
  targetPeerId : string;
  isConnected : bool;
  isConnecting : bool;
  statusMessage : string;
  messages : list ChatMessage;
  keypair : option StoredKeypair;
  peerReady : bool;
  connections : list DataConnection.t;
  trace : list Effect
}.

Definition setConnectionRef (v : option nat) (w : World) : World :=
  {| peerRef := peerRef w; connectionRef := v; peerId := peerId w;
     targetPeerId := targetPeerId w; isConnected := isConnected w;
     isConnecting := isConnecting w; statusMessage := statusMessage w;
     messages := messages w; keypair := keypair w; peerReady := peerReady w;
     connections := connections w; trace := trace w |}.

Definition setTargetPeerId (v : string) (w : World) : World :=
  {| peerRef := peerRef w; connectionRef := connectionRef w; peerId := peerId w;
     targetPeerId := v; isConnected := isConnected w;
     isConnecting := isConnecting w; statusMessage := statusMessage w;
     messages := messages w; keypair := keypair w; peerReady := peerReady w;
     connections := connections w; trace := trace w |}.

Definition setIsConnected (v : bool) (w : World) : World :=
  {| peerRef := peerRef w; connectionRef := connectionRef w; peerId := peerId w;
     targetPeerId := targetPeerId w; isConnected := v;
     isConnecting := isConnecting w; statusMessage := statusMessage w;
     messages := messages w; keypair := keypair w; peerReady := peerReady w;
     connections := connections w; trace := trace w |}.

Definition setIsConnecting (v : bool) (w : World) : World :=
  {| peerRef := peerRef w; connectionRef := connectionRef w; peerId := peerId w;
     targetPeerId := targetPeerId w; isConnected := isConnected w;
     isConnecting := v; statusMessage := statusMessage w;
     messages := messages w; keypair := keypair w; peerReady := peerReady w;
     connections := connections w; trace := trace w |}.

Definition setStatusMessage (v : string) (w : World) : World :=
  {| peerRef := peerRef w; connectionRef := connectionRef w; peerId := peerId w;
     targetPeerId := targetPeerId w; isConnected := isConnected w;
     isConnecting := isConnecting w; statusMessage := v;
     messages := messages w; keypair := keypair w; peerReady := peerReady w;
     connections := connections w; trace := trace w |}.

(** [setMessages(fn)]: the updater is applied to the list as it is when the
    update runs. *)
Definition setMessages (fn : list ChatMessage -> list ChatMessage) (w : World) : World :=
  {| peerRef := peerRef w; connectionRef := connectionRef w; peerId := peerId w;
     targetPeerId := targetPeerId w; isConnected := isConnected w;
     isConnecting := isConnecting w; statusMessage := statusMessage w;
     messages := fn (messages w); keypair := keypair w; peerReady := peerReady w;
     connections := connections w; trace := trace w |}.

Definition setPeerReady (v : bool) (w : World) : World :=
  {| peerRef := peerRef w; connectionRef := connectionRef w; peerId := peerId w;
     targetPeerId := targetPeerId w; isConnected := isConnected w;
     isConnecting := isConnecting w; statusMessage := statusMessage w;
     messages := messages w; keypair := keypair w; peerReady := v;
     connections := connections w; trace := trace w |}.

Definition setConnections (v : list DataConnection.t) (w : World) : World :=
  {| peerRef := peerRef w; connectionRef := connectionRef w; peerId := peerId w;
     targetPeerId := targetPeerId w; isConnected := isConnected w;
     isConnecting := isConnecting w; statusMessage := statusMessage w;
     messages := messages w; keypair := keypair w; peerReady := peerReady w;
     connections := v; trace := trace w |}.

(** Append calls to the log. *)
Definition log (calls : list Effect) (w : World) : World :=
  {| peerRef := peerRef w; connectionRef := connectionRef w; peerId := peerId w;
     targetPeerId := targetPeerId w; isConnected := isConnected w;
     isConnecting := isConnecting w; statusMessage := statusMessage w;
     messages := messages w; keypair := keypair w; peerReady := peerReady w;
     connections := connections w; trace := trace w ++ calls |}.

(** [connectionRef.current.open] for a handle [c]; a handle always names an
    allocated object (see [tracked_allocated]). *)
Definition is_open (w : World) (c : nat) : bool :=
  match connections w !! c with
  | Some k => DataConnection.open k
  | None => false
  end.

(** ** addMessage (App.tsx 37-48) *)

(** The object literal addMessage appends. *)
Definition new_message (sender : Sender) (text : JsValue) (verified : option bool)
    (st : Stamp) : ChatMessage :=
  {| id := pretty (date_now st) +:+ "-" +:+ random_hex st;
     sender := sender;
     text := text;
     timestamp := new_date st;
     verified := verified |}.

Definition addMessage (sender : Sender) (text : JsValue) (verified : option bool)
    (st : Stamp) (w : World) : World :=
  setMessages (fun prev => prev ++ [new_message sender text verified st]) w.

(** ** Code that may throw *)

Inductive Completion (A : Type) : Type :=
| Normal (a : A)
| Throw (e : Exn).
Arguments Normal {A} a.
Arguments Throw {A} e.

(** A computation over the world that returns or throws; what was written
    before a throw stays written. *)
Definition M (A : Type) : Type := World -> Completion A * World.

Definition ret {A : Type} (a : A) : M A := fun w => (Normal a, w).

Definition bind {A B : Type} (m : M A) (k : A -> M B) : M B :=
  fun w =>
    match m w with
    | (Normal a, w') => k a w'
    | (Throw e, w') => (Throw e, w')
    end.

Definition throw {A : Type} (e : Exn) : M A := fun w => (Throw e, w).

(** [try { body } catch (error) { handler }] *)
Definition try_catch {A : Type} (body : M A) (handler : Exn -> M A) : M A :=
  fun w =>
    match body w with
    | (Normal a, w') => (Normal a, w')
    | (Throw e, w') => handler e w'
    end.

(** A state update that cannot throw. *)
Definition update (f : World -> World) : M unit := fun w => (Normal tt, f w).

(** A read of the current world. *)
Definition current {A : Type} (f : World -> A) : M A := fun w => (Normal (f w), w).

(** The outcome of an expression of the language: its value, or a throw. *)
Definition eval {A : Type} (r : Exn + A) : M A :=
  match r with
  | inr a => ret a
  | inl e => throw e
  end.

(** A logged call to a collaborator, awaited: its value, or a throw. *)
Definition call {A : Type} (c : Effect) (r : Exn + A) : M A :=
  bind (update (log [c])) (fun _ => eval r).

Notation "'let*' x ':=' m 'in' k" := (bind m (fun x => k))
  (at level 10, x binder, m at level 100, k at level 200).

Notation "w |> f" := (f w) (at level 45, left associativity, only parsing).

(** ** The collaborators' interfaces *)

Module openpgp.
(** One entry of [verification.signatures]: [verified] is a promise that
    fulfils when the signature is good and rejects otherwise. *)
Record VerificationEntry : Type := { verified : Exn + bool }.

Record VerifyMessageResult : Type := { signatures : list VerificationEntry }.

(** The operations App.tsx calls; the ones that parse or check take the
    run-time value they are handed and may throw. [sign] is the detached,
    armored form. *)
Class Library : Type := {
  PrivateKey : Type;
  PublicKey : Type;
  Signature : Type;
  Message : Type;
  readPrivateKey : string -> Exn + PrivateKey;
  createMessage : JsValue -> Exn + Message;
  sign : Message -> PrivateKey -> Exn + string;
  readSignature : JsValue -> Exn + Signature;
  readKey : JsValue -> Exn + PublicKey;
  verify : Message -> Signature -> PublicKey -> Exn + VerifyMessageResult;
  getFingerprint : PublicKey -> string
}.
End openpgp.

Module JSON.
(** [JSON.stringify] *)
Class Builtin : Type := { stringify : JsValue -> JsValue }.
End JSON.

Section App.
Context {pgp : openpgp.Library} {json : JSON.Builtin}.

(** ** connection.on('data') (App.tsx 108-150) *)

(** [!payload.text || !payload.signature || !payload.publicKey], read left
    to right with short circuit. *)
Definition payload_incomplete (payload : JsValue) : M bool :=
  let* text := eval (get_prop payload "text") in
  if negb (truthy text) then ret true else
  let* signature := eval (get_prop payload "signature") in
  if negb (truthy signature) then ret true else
  let* publicKey := eval (get_prop payload "publicKey") in
  ret (negb (truthy publicKey)).

(** [const [{ verified }] = verification.signatures]: destructuring the
    first element throws when the array is empty. *)
Definition first_verified (verification : openpgp.VerifyMessageResult)
    : M (Exn + bool) :=
  match openpgp.signatures verification with
  | entry :: _ => ret (openpgp.verified entry)
  | [] => throw (TypeError "Cannot destructure property 'verified' of undefined")
  end.

(** The body of the [try] block (App.tsx 122-143). *)
Definition verify_and_show (connection_peer : string) (payload : JsValue)
    (st : Stamp) : M unit :=
  let* text := eval (get_prop payload "text") in
  let* message := call (Pgp CallCreateMessage) (openpgp.createMessage text) in
  let* armoredSignature := eval (get_prop payload "signature") in
  let* signature := call (Pgp CallReadSignature) (openpgp.readSignature armoredSignature) in
  let* armoredKey := eval (get_prop payload "publicKey") in
  let* publicKey := call (Pgp CallReadKey) (openpgp.readKey armoredKey) in
  let* verification := call (Pgp CallVerify) (openpgp.verify message signature publicKey) in
  let* verified := first_verified verification in
  let* _ := eval verified in
  let fingerprint := openpgp.getFingerprint publicKey in
  let* _ := (if negb (String.eqb fingerprint connection_peer)
             then update (setStatusMessage "Peer fingerprint mismatch.")
             else ret tt) in
  let* text := eval (get_prop payload "text") in
  update (addMessage peer text (Some true) st).

(** handleIncoming for a message on [connection], whose [connection.peer]
    is [connection_peer].  The function is async: the string and the
    incomplete-payload branches run at once; the last branch writes state
    only after its last await, in one go, so its effect is this transformer
    applied to the world as it is when the awaits are over (the calls to
    openpgp are logged there too).  A throw here is the rejection of the
    promise that [void handleIncoming()] drops. *)
Definition handleIncoming (connection_peer : string) (data : JsValue)
    (st : Stamp) : M unit :=
  if typeof_string data then update (addMessage peer data (Some false) st)
  else
    let payload := data in
    let* incomplete := payload_incomplete payload in
    if incomplete
    then update (addMessage peer (JSON.stringify data) (Some false) st)
    else
      try_catch (verify_and_show connection_peer payload st)
        (fun error =>
           let* text := eval (get_prop payload "text") in
           update (addMessage peer text (Some false) st)).

(** ** attachConnection and the connection's handlers (App.tsx 96-163) *)

Definition attachConnection (connection : option nat) (w : World) : World :=
  match connection with
  | None =>
      w |> setStatusMessage "Connection failed to start."
        |> setIsConnecting false
  | Some c => w |> setConnectionRef (Some c)
  end.

Definition connection_on_open (w : World) : World :=
  w |> setIsConnected true |> setIsConnecting false |> setStatusMessage "".

Definition connection_on_close (w : World) : World :=
  w |> setIsConnected false |> setIsConnecting false
    |> setStatusMessage "Connection closed."
    |> setConnectionRef None.

Definition connection_on_error (error : TransportError) (w : World) : World :=
  w |> setIsConnected false |> setIsConnecting false
    |> setStatusMessage (or_else (message error) "Connection error.")
    |> setConnectionRef None.

(** ** The transport's two calls *)

(** [connection.close()]: the object stops being open.  The [close] event
    the transport raises for it is a turn of its own ([Connection_close]). *)
Definition close (c : nat) (w : World) : World :=
  w |> setConnections (alter DataConnection.closed c (connections w))
    |> log [Close c].

(** [connection.send(payload)] *)
Definition send (c : nat) (payload : JsValue) (w : World) : World :=
  w |> log [Send c payload].

(** [peer.connect(target)]: a new connection object, not yet open, or
    [undefined] when the transport yields none. *)
Definition connect (target : string) (yields : bool) (w : World)
    : option nat * World :=
  if yields
  then (Some (length (connections w)),
        w |> setConnections
               (connections w ++
                  [ {| DataConnection.peer := target;
                       DataConnection.open := false |} ])
          |> log [Connect target])
  else (None, w |> log [Connect target]).

(** [if (connectionRef.current && connectionRef.current.open)
       connectionRef.current.close()] *)
Definition close_current_if_open (w : World) : World :=
  match connectionRef w with
  | Some c => if is_open w c then close c w else w
  | None => w
  end.

(** ** The endpoint's handlers (App.tsx 176-191) *)

Definition peer_on_open (w : World) : World := w |> setPeerReady true.

Definition peer_on_connection (connection : nat) (connection_peer : string)
    (w : World) : World :=
  w |> close_current_if_open
    |> setTargetPeerId connection_peer
    |> setIsConnecting false
    |> attachConnection (Some connection).

Definition peer_on_error (error : TransportError) (w : World) : World :=
  w |> setStatusMessage (or_else (message error) "Peer error.").

(** ** handleConnect, handleDisconnect (App.tsx 199-222) *)

Definition handleConnect (yields : bool) (w : World) : World :=
  if negb (bool_decide (is_Some (peerRef w)))
     || String.eqb (trim (targetPeerId w)) ""
  then w
  else if negb (peerReady w)
  then w |> setStatusMessage "Peer not ready yet."
  else
    let w1 := w |> close_current_if_open
                |> setIsConnecting true
                |> setStatusMessage "" in
    let (connection, w2) := connect (trim (targetPeerId w)) yields w1 in
    attachConnection connection w2.

Definition handleDisconnect (w : World) : World :=
  (match connectionRef w with
   | Some c => close c w
   | None => w
   end)
    |> setIsConnected false |> setIsConnecting false.

(** ** handleSendMessage (App.tsx 224-253) *)

(** The guard of line 225, negated: the handler goes on. *)
Definition may_send (w : World) : bool :=
  match connectionRef w with
  | Some c => is_open w c && bool_decide (is_Some (keypair w))
  | None => false
  end.

(** The [try] block and its [catch], for the keypair [kp] of the render the
    handler belongs to.  [connectionRef.current] is read when the awaits are
    over; calling [send] on [null] throws a TypeError, inside the [try]. *)
Definition sign_and_send (kp : StoredKeypair) (text : string) (st : Stamp)
    : M unit :=
  try_catch
    (let* privateKey :=
       call (Pgp CallReadPrivateKey) (openpgp.readPrivateKey (privateKeyArmored kp)) in
     let* message := call (Pgp CallCreateMessage) (openpgp.createMessage (JsString text)) in
     let* signature := call (Pgp CallSign) (openpgp.sign message privateKey) in
     let payload := WireMessage text signature (publicKeyArmored kp) in
     let* connection := current connectionRef in
     let* _ := (match connection with
                | Some c => update (send c payload)
                | None => throw (TypeError "Cannot read properties of null")
                end) in
     update (addMessage me (JsString text) (Some true) st))
    (fun error => update (setStatusMessage "Failed to sign message.")).

(** handleSendMessage, called in world [w0]; its awaits are over in world
    [w1], which is [w0] unless other handlers ran meanwhile.  The guard and
    [keypair] are read at the call, everything else after the awaits. *)
Definition handleSendMessage_async (text : string) (st : Stamp)
    (w0 w1 : World) : Completion unit * World :=
  if may_send w0
  then match keypair w0 with
       | Some kp => sign_and_send kp text st w1
       | None => (Normal tt, w1)
       end
  else (Normal tt, w1).

(** handleSendMessage with nothing running between call and completion. *)
Definition handleSendMessage (text : string) (st : Stamp) : M unit :=
  fun w => handleSendMessage_async text st w w.

End App.

(** ** The event loop *)

(** What the user and the transport can make happen.  The transport's
    events carry the connection they are raised on; [Click_connect] carries
    whether [peer.connect] yields a connection object. *)
Inductive Event : Type :=
| Type_target (value : string)
| Click_connect (yields : bool)
| Click_disconnect
| Submit (text : string) (st : Stamp)
| Peer_open
| Peer_connection (remote : string)
| Peer_error (error : TransportError)
| Connection_open (c : nat)
| Connection_data (c : nat) (data : JsValue) (st : Stamp)
| Connection_close (c : nat)
| Connection_error (c : nat) (error : TransportError).

Section Loop.
Context {pgp : openpgp.Library} {json : JSON.Builtin}.

(** One turn of the event loop.  The rendered controls gate the user's
    events as the JSX does (App.tsx 329-356, 387-390, 409-416); the
    transport sets a connection's [open] flag before it raises [open] or
    [close], and raises events only on connection objects it has made. *)
Definition step (w : World) (ev : Event) : World :=
  match ev with
  | Type_target value =>
      if isConnected w || String.eqb (peerId w) "" || negb (peerReady w)
      then w
      else setTargetPeerId value w
  | Click_connect yields =>
      if isConnected w || String.eqb (peerId w) "" || negb (peerReady w)
         || String.eqb (trim (targetPeerId w)) "" || isConnecting w
      then w
      else handleConnect yields w
  | Click_disconnect =>
      if isConnected w then handleDisconnect w else w
  | Submit text st =>
      if String.eqb (trim text) "" || negb (isConnected w)
      then w
      else snd (handleSendMessage (trim text) st w)
  | Peer_open => peer_on_open w
  | Peer_connection remote =>
      let c := length (connections w) in
      w |> setConnections
             (connections w ++
                [ {| DataConnection.peer := remote;
                     DataConnection.open := false |} ])
        |> peer_on_connection c remote
  | Peer_error error => peer_on_error error w
  | Connection_open c =>
      match connections w !! c with
      | Some _ =>
          w |> setConnections (alter DataConnection.opened c (connections w))
            |> connection_on_open
      | None => w
      end
  | Connection_data c data st =>
      match connections w !! c with
      | Some k => snd (handleIncoming (DataConnection.peer k) data st w)
      | None => w
      end
  | Connection_close c =>
      match connections w !! c with
      | Some _ =>
          w |> setConnections (alter DataConnection.closed c (connections w))
            |> connection_on_close
      | None => w
      end
  | Connection_error c error =>
      match connections w !! c with
      | Some _ => connection_on_error error w
      | None => w
      end
  end.

Definition run (w : World) (evs : list Event) : World := fold_left step evs w.

(** The world once the keys are set up and the endpoint is constructed
    (the two effects of App.tsx 50-94 and 165-197 have run). *)
Definition mounted (fingerprint : string) (kp : StoredKeypair) : World :=
  {| peerRef := Some fingerprint; connectionRef := None;
     peerId := fingerprint; targetPeerId := "";
     isConnected := false; isConnecting := false; statusMessage := "";
     messages := []; keypair := Some kp; peerReady := false;
     connections := []; trace := [] |}.


End Loop.

(** ** The notions the properties are stated with *)

(** The calls to openpgp of a verification that runs to its end. *)
Definition verify_calls : list Effect :=
  [Pgp CallCreateMessage; Pgp CallReadSignature; Pgp CallReadKey; Pgp CallVerify].

Section Notions.
Context {pgp : openpgp.Library} {json : JSON.Builtin}.

(** A keypair as openpgp generates it: both armored blobs parse, the
    public one is not empty, and a detached signature made over any text
    with the private key is a non-empty armored string that parses and
    that [verify] accepts under the public key. *)
Definition valid_keypair (kp : StoredKeypair) : Prop :=
  publicKeyArmored kp <> "" /\
  exists sk pk,
    openpgp.readPrivateKey (privateKeyArmored kp) = inr sk /\
    openpgp.readKey (JsString (publicKeyArmored kp)) = inr pk /\
    forall T : string,
    exists m sig s entry rest ok,
      openpgp.createMessage (JsString T) = inr m /\
      openpgp.sign m sk = inr sig /\
      sig <> "" /\
      openpgp.readSignature (JsString sig) = inr s /\
      openpgp.verify m s pk
        = inr {| openpgp.signatures := entry :: rest |} /\
      openpgp.verified entry = inr ok.

(** The round trip of text [T] under keypair [kp]: whatever world the
    sender is in when its guard passes and when it resumes with a
    connection at hand, its last call is a [send] of some payload; and a
    receiver whose connection's remote identifier is the fingerprint of
    [kp]'s public key, handed that payload, appends the entry
    [{sender: peer, text: T, verified: true}] and leaves the status
    advisory alone. *)
Definition round_trip (kp : StoredKeypair) (T : string) : Prop :=
  forall (st st' : Stamp) (w0 w1 wr : World) (c : nat) (pk : openpgp.PublicKey),
    may_send w0 = true ->
    keypair w0 = Some kp ->
    connectionRef w1 = Some c ->
    openpgp.readKey (JsString (publicKeyArmored kp)) = inr pk ->
    exists calls payload,
      trace (snd (handleSendMessage_async T st w0 w1))
        = trace w1 ++ calls ++ [Send c payload] /\
      let r := handleIncoming (openpgp.getFingerprint pk) payload st' wr in
      fst r = Normal tt /\
      messages (snd r)
        = messages wr ++ [new_message peer (JsString T) (Some true) st'] /\
      statusMessage (snd r) = statusMessage wr.

(** A payload that passes the guard of App.tsx 116: not a string, and its
    [text], [signature] and [publicKey] read as the three truthy values. *)
Definition envelope (data text signature publicKey : JsValue) : Prop :=
  typeof_string data = false /\
  get_prop data "text" = inr text /\ truthy text = true /\
  get_prop data "signature" = inr signature /\ truthy signature = true /\
  get_prop data "publicKey" = inr publicKey /\ truthy publicKey = true.

(** The signature of the envelope verifies: every step of App.tsx 122-136
    returns, and the awaited [verified] fulfils.  [pk] is the parsed key. *)
Definition signature_verifies (text signature publicKey : JsValue)
    (pk : openpgp.PublicKey) : Prop :=
  exists m s entry rest ok,
    openpgp.createMessage text = inr m /\
    openpgp.readSignature signature = inr s /\
    openpgp.readKey publicKey = inr pk /\
    openpgp.verify m s pk = inr {| openpgp.signatures := entry :: rest |} /\
    openpgp.verified entry = inr ok.

(** Some step of the verification throws or rejects; [calls] are the calls
    made to openpgp up to and including the one that fails. *)
Inductive verification_fails (text signature publicKey : JsValue)
    : list Effect -> Prop :=
| fails_createMessage e :
    openpgp.createMessage text = inl e ->
    verification_fails text signature publicKey [Pgp CallCreateMessage]
| fails_readSignature m e :
    openpgp.createMessage text = inr m ->
    openpgp.readSignature signature = inl e ->
    verification_fails text signature publicKey
      [Pgp CallCreateMessage; Pgp CallReadSignature]
| fails_readKey m s e :
    openpgp.createMessage text = inr m ->
    openpgp.readSignature signature = inr s ->
    openpgp.readKey publicKey = inl e ->
    verification_fails text signature publicKey
      [Pgp CallCreateMessage; Pgp CallReadSignature; Pgp CallReadKey]
| fails_verify m s pk e :
    openpgp.createMessage text = inr m ->
    openpgp.readSignature signature = inr s ->
    openpgp.readKey publicKey = inr pk ->
    openpgp.verify m s pk = inl e ->
    verification_fails text signature publicKey
      [Pgp CallCreateMessage; Pgp CallReadSignature; Pgp CallReadKey;
       Pgp CallVerify]
| fails_no_signature m s pk :
    openpgp.createMessage text = inr m ->
    openpgp.readSignature signature = inr s ->
    openpgp.readKey publicKey = inr pk ->
    openpgp.verify m s pk = inr {| openpgp.signatures := [] |} ->
    verification_fails text signature publicKey
      [Pgp CallCreateMessage; Pgp CallReadSignature; Pgp CallReadKey;
       Pgp CallVerify]
| fails_rejected m s pk entry rest e :
    openpgp.createMessage text = inr m ->
    openpgp.readSignature signature = inr s ->
    openpgp.readKey publicKey = inr pk ->
    openpgp.verify m s pk = inr {| openpgp.signatures := entry :: rest |} ->
    openpgp.verified entry = inl e ->
    verification_fails text signature publicKey
      [Pgp CallCreateMessage; Pgp CallReadSignature; Pgp CallReadKey;
       Pgp CallVerify].

(** Signing throws: private-key parsing, message construction or the
    signature itself; [calls] as above. *)
Inductive signing_fails (kp : StoredKeypair) (text : string)
    : list Effect -> Prop :=
| fails_readPrivateKey e :
    openpgp.readPrivateKey (privateKeyArmored kp) = inl e ->
    signing_fails kp text [Pgp CallReadPrivateKey]
| fails_message sk e :
    openpgp.readPrivateKey (privateKeyArmored kp) = inr sk ->
    openpgp.createMessage (JsString text) = inl e ->
    signing_fails kp text [Pgp CallReadPrivateKey; Pgp CallCreateMessage]
| fails_sign sk m e :
    openpgp.readPrivateKey (privateKeyArmored kp) = inr sk ->
    openpgp.createMessage (JsString text) = inr m ->
    openpgp.sign m sk = inl e ->
    signing_fails kp text
      [Pgp CallReadPrivateKey; Pgp CallCreateMessage; Pgp CallSign].

End Notions.

(** The handle in [connectionRef] names an object the transport has made. *)
Definition tracked_is_allocated (w : World) : Prop :=
  forall c, connectionRef w = Some c -> c < length (connections w).

(** ** decode, as the spec words it and as the handler branches *)

Inductive Decoded : Type := LegacyText | DecodedEnvelope | Malformed.

(** A property read that yields [undefined] where the read would throw. *)
Definition field (raw : JsValue) (name : string) : JsValue :=
  match get_prop raw name with
  | inr v => v
  | inl _ => JsUndefined
  end.

(** The spec's decode (section 4.2): a plain string is legacy text; a
    payload with [text], [signature] and [publicKey] all strings is an
    envelope; anything else is malformed. *)
Definition spec_decode (raw : JsValue) : Decoded :=
  if typeof_string raw then LegacyText
  else if typeof_string (field raw "text")
          && typeof_string (field raw "signature")
          && typeof_string (field raw "publicKey")
  then DecodedEnvelope
  else Malformed.

(** The branch handleIncoming takes, by the tests of App.tsx 110 and 116. *)
Definition classify (raw : JsValue) : Decoded :=
  if typeof_string raw then LegacyText
  else if truthy (field raw "text")
          && truthy (field raw "signature")
          && truthy (field raw "publicKey")
  then DecodedEnvelope
  else Malformed.

Section Behaviour.
Context {pgp : openpgp.Library} {json : JSON.Builtin}.

(** What handling [data] as each class means: legacy text is shown as it
    is, unverified, with no call to openpgp; a malformed payload is shown
    as its JSON text, unverified, with no call to openpgp; for an envelope
    verification is attempted (openpgp is called, first of all to build
    the message) and [payload.text] is shown with the verdict. *)
Definition handled_as (d : Decoded) (connection_peer : string)
    (data : JsValue) (st : Stamp) (w : World) : Prop :=
  match d with
  | LegacyText =>
      handleIncoming connection_peer data st w
        = (Normal tt, addMessage peer data (Some false) st w)
  | Malformed =>
      handleIncoming connection_peer data st w
        = (Normal tt, addMessage peer (JSON.stringify data) (Some false) st w)
  | DecodedEnvelope =>
      exists w' calls verdict,
        handleIncoming connection_peer data st w = (Normal tt, w') /\
        trace w' = trace w ++ Pgp CallCreateMessage :: calls /\
        messages w'
          = messages w ++ [new_message peer (field data "text") (Some verdict) st]
  end.


(** The error transition of the spec (section 4.4): the error's message is
    the status advisory, no connection is tracked, and the controller is
    neither connected nor connecting. *)
Definition reset_to_ready (error : TransportError) (w : World) : Prop :=
  statusMessage w = message error /\
  connectionRef w = None /\
  isConnected w = false /\
  isConnecting w = false.

End Behaviour.

(** ** A stand-in for the collaborators

    A toy signature scheme and a small JSON printer, used only to run the
    model on concrete inputs: the armored private key of [owner] is
    ["PRIVATE " owner], the public one ["PUBLIC " owner], a signature by
    [owner] over [text] is ["SIGNATURE " owner "/" text], the fingerprint
    is ["fp-" owner]. *)
Module Sample.

(** [s] without its prefix [prefix], when it has it. *)
Fixpoint strip (prefix s : string) : option string :=
  match prefix, s with
  | EmptyString, _ => Some s
  | String a prefix', String b s' =>
      if Ascii.eqb a b then strip prefix' s' else None
  | String _ _, EmptyString => None
  end.

Definition after (prefix s : string) : Exn + string :=
  match strip prefix s with
  | Some rest => inr rest
  | None => inl (PgpError "Misformed armored text")
  end.

Definition of_string (v : JsValue) : Exn + string :=
  match v with
  | JsString s => inr s
  | _ => inl (PgpError "Parameter must be of type String")
  end.

Definition signature_of (owner text : string) : string :=
  "SIGNATURE " +:+ owner +:+ "/" +:+ text.

Definition check (text signature owner : string) : openpgp.VerifyMessageResult :=
  {| openpgp.signatures :=
       [ {| openpgp.verified :=
              if String.eqb signature (signature_of owner text)
              then inr true
              else inl (PgpError "Signed digest did not match") |} ] |}.

#[export] Instance pgp : openpgp.Library := {|
  openpgp.PrivateKey := string;
  openpgp.PublicKey := string;
  openpgp.Signature := string;
  openpgp.Message := string;
  openpgp.readPrivateKey := after "PRIVATE ";
  openpgp.createMessage := of_string;
  openpgp.sign := fun text owner => inr (signature_of owner text);
  openpgp.readSignature := fun v =>
    match of_string v with
    | inr s => match after "SIGNATURE " s with
               | inr _ => inr s
               | inl e => inl e
               end
    | inl e => inl e
    end;
  openpgp.readKey := fun v =>
    match of_string v with
    | inr s => after "PUBLIC " s
    | inl e => inl e
    end;
  openpgp.verify := fun text signature owner => inr (check text signature owner);
  openpgp.getFingerprint := fun owner => "fp-" +:+ owner
|}.

(** The double quote character, code 34. *)
Definition dquote : string := String (Ascii.ascii_of_nat 34) EmptyString.

Definition quote (s : string) : string := dquote +:+ s +:+ dquote.

Fixpoint show (v : JsValue) : string :=
  match v with
  | JsUndefined | JsNull => "null"
  | JsBool true => "true"
  | JsBool false => "false"
  | JsNumber _ => "0"
  | JsString s => quote s
  | JsArray items =>
      "[" +:+ (fix go (l : list JsValue) : string :=
                 match l with
                 | [] => ""
                 | [x] => show x
                 | x :: rest => show x +:+ "," +:+ go rest
                 end) items +:+ "]"
  | JsObject props =>
      "{" +:+ (fix go (l : list (string * JsValue)) : string :=
                 match l with
                 | [] => ""
                 | [(k, x)] => quote k +:+ ":" +:+ show x
                 | (k, x) :: rest => quote k +:+ ":" +:+ show x +:+ "," +:+ go rest
                 end) props +:+ "}"
  end.

#[export] Instance json : JSON.Builtin := {|
  JSON.stringify := fun v =>
    match v with
    | JsUndefined => JsUndefined
    | _ => JsString (show v)
    end
|}.

Definition keys (owner : string) : StoredKeypair :=
  {| publicKeyArmored := "PUBLIC " +:+ owner;
     privateKeyArmored := "PRIVATE " +:+ owner |}.

Definition noon : Stamp :=
  {| date_now := 1700000000000; random_hex := "9f3c2a"; new_date := 1700000000000 |}.

(** The app of [self], mounted, its endpoint open, with one connection to
    [other]'s fingerprint attached; the connection is open or pending. *)
Definition app (self other : string) (is_open : bool) : World :=
  {| peerRef := Some ("fp-" +:+ self); connectionRef := Some 0;
     peerId := "fp-" +:+ self; targetPeerId := "fp-" +:+ other;
     isConnected := is_open; isConnecting := negb is_open; statusMessage := "";
     messages := []; keypair := Some (keys self); peerReady := true;
     connections := [ {| DataConnection.peer := "fp-" +:+ other;
                         DataConnection.open := is_open |} ];
     trace := [] |}.


(** What alice's handler sends for "hello", and the same with the text
    changed on the way. *)
Definition hello : JsValue :=
  WireMessage "hello" (signature_of "alice" "hello") "PUBLIC alice".


(** What alice's handler sends for the empty text. *)
Definition empty_text : JsValue :=
  WireMessage "" (signature_of "alice" "") "PUBLIC alice".

(** Alice asks to connect to bob; before that connection opens, an offer
    from carol comes in; then both connections open. *)
Definition crossed_offers : list Event :=
  [Peer_open; Type_target "fp-bob"; Click_connect true;
   Peer_connection "fp-carol"; Connection_open 0; Connection_open 1].


(** Alice connects to bob, the connection opens, and the endpoint then
    reports an error. *)
Definition endpoint_error : TransportError :=
  {| message := "Lost connection to server." |}.

Definition connected_then_endpoint_error : list Event :=
  [Peer_open; Type_target "fp-bob"; Click_connect true; Connection_open 0;
   Peer_error endpoint_error].

End Sample.

(** ** Start-up (App.tsx 50-94, 165-197) *)

Definition setKeypair (v : option StoredKeypair) (w : World) : World :=
  {| peerRef := peerRef w; connectionRef := connectionRef w; peerId := peerId w;
     targetPeerId := targetPeerId w; isConnected := isConnected w;
     isConnecting := isConnecting w; statusMessage := statusMessage w;
     messages := messages w; keypair := v; peerReady := peerReady w;
     connections := connections w; trace := trace w |}.

Definition setPeerId (v : string) (w : World) : World :=
  {| peerRef := peerRef w; connectionRef := connectionRef w; peerId := v;
     targetPeerId := targetPeerId w; isConnected := isConnected w;
     isConnecting := isConnecting w; statusMessage := statusMessage w;
     messages := messages w; keypair := keypair w; peerReady := peerReady w;
     connections := connections w; trace := trace w |}.

Definition setPeerRef (v : option string) (w : World) : World :=
  {| peerRef := v; connectionRef := connectionRef w; peerId := peerId w;
     targetPeerId := targetPeerId w; isConnected := isConnected w;
     isConnecting := isConnecting w; statusMessage := statusMessage w;
     messages := messages w; keypair := keypair w; peerReady := peerReady w;
     connections := connections w; trace := trace w |}.

(** The component as first rendered: the [useState] and [useRef] initial
    values of App.tsx 26-35, no transport object, nothing called yet. *)
Definition initial : World :=
  {| peerRef := None; connectionRef := None; peerId := ""; targetPeerId := "";
     isConnected := false; isConnecting := false; statusMessage := "";
     messages := []; keypair := None; peerReady := false;
     connections := []; trace := [] |}.

Section Startup.
Context {pgp : openpgp.Library}.

(** initKeys (App.tsx 53-87).  [test_mode] is [process.env.NODE_ENV ===
    'test']; [generated] is what awaiting [openpgp.generateKey] gives, its
    two armored blobs or a throw; [isMounted] is the flag as it is when the
    awaits are over. *)
Definition initKeys (test_mode isMounted : bool)
    (generated : Exn + StoredKeypair) : M unit :=
  if test_mode
  then update (fun w =>
         w |> setKeypair (Some {| publicKeyArmored := "";
                                  privateKeyArmored := "" |})
           |> setPeerId "test-peer"
           |> setStatusMessage "")
  else
    let* _ := update (setStatusMessage "Generating keys...") in
    try_catch
      (let* storedKeypair := eval generated in
       let* publicKey :=
         call (Pgp CallReadKey)
           (openpgp.readKey (JsString (publicKeyArmored storedKeypair))) in
       let fingerprint := openpgp.getFingerprint publicKey in
       if isMounted
       then update (fun w =>
              w |> setKeypair (Some storedKeypair)
                |> setPeerId fingerprint
                |> setStatusMessage "")
       else ret tt)
      (fun error =>
         if isMounted then update (setStatusMessage "Key setup failed.")
         else ret tt).

(** The effect of App.tsx 165-179, run after a render with the current
    [peerId]: it constructs the endpoint once an identifier is there and no
    endpoint is held. *)
Definition peer_effect (test_mode : bool) (w : World) : World :=
  if test_mode then w
  else if String.eqb (peerId w) "" || bool_decide (is_Some (peerRef w)) then w
  else w |> setPeerRef (Some (peerId w)) |> setPeerReady false.

(** Mounting: the key effect runs to its end, then the endpoint effect. *)
Definition startup (test_mode : bool) (generated : Exn + StoredKeypair) : World :=
  peer_effect test_mode (snd (initKeys test_mode true generated initial)).

End Startup.

(** ** What a call log holds *)

(** The payloads sent, with the connection each was sent on. *)
Definition sent (t : list Effect) : list (nat * JsValue) :=
  omap (fun e => match e with
                 | Send c payload => Some (c, payload)
                 | _ => None
                 end) t.

(** The targets [peer.connect] was called with. *)
Definition connects (t : list Effect) : list string :=
  omap (fun e => match e with
                 | Connect target => Some target
                 | _ => None
                 end) t.

(** An entry as addMessage is ever called: from the peer with a verdict, or
    the user's own text stamped verified. *)
Definition entry_ok (m : ChatMessage) : Prop :=
  (sender m = peer /\ exists verdict, verified m = Some verdict) \/
  (sender m = me /\ verified m = Some true /\ exists s, text m = JsString s).

(** What the user does, and what the endpoint reports of itself; none of
    these is raised by a connection. *)
Definition not_from_connection (ev : Event) : bool :=
  match ev with
  | Type_target _ | Click_connect _ | Click_disconnect | Submit _ _
  | Peer_open | Peer_error _ => true
  | Peer_connection _ | Connection_open _ | Connection_data _ _ _
  | Connection_close _ | Connection_error _ _ => false
  end.

(** ** What is rendered (App.tsx 268-274) *)

(** [statusLabel], the line beside the status dot. *)
Definition statusLabel (w : World) : string :=
  if isConnected w then "Connected to " +:+ targetPeerId w
  else if isConnecting w then "Connecting..."
  else if negb (String.eqb (peerId w) "") then "Not connected"
  else "Preparing keys...".

(** What the user does through the rendered controls. *)
Definition from_user (ev : Event) : bool :=
  match ev with
  | Type_target _ | Click_connect _ | Click_disconnect | Submit _ _ => true
  | _ => false
  end.

(** * Proofs *)

(** ** How the monad's pieces compute *)

Section Computing.
Context {A B : Type}.

Lemma call_returns (c : Effect) (r : Exn + A) (a : A) (k : A -> M B) (w : World) :
  r = inr a -> bind (call c r) k w = k a (log [c] w).
Proof. intros ->. reflexivity. Qed.

Lemma call_throws (c : Effect) (r : Exn + A) (e : Exn) (k : A -> M B) (w : World) :
  r = inl e -> bind (call c r) k w = (Throw e, log [c] w).
Proof. intros ->. reflexivity. Qed.

Lemma eval_returns (r : Exn + A) (a : A) (k : A -> M B) (w : World) :
  r = inr a -> bind (eval r) k w = k a w.
Proof. intros ->. reflexivity. Qed.

Lemma eval_throws (r : Exn + A) (e : Exn) (k : A -> M B) (w : World) :
  r = inl e -> bind (eval r) k w = (Throw e, w).
Proof. intros ->. reflexivity. Qed.

Lemma bind_ret (a : A) (k : A -> M B) (w : World) : bind (ret a) k w = k a w.
Proof. reflexivity. Qed.

Lemma bind_throw (e : Exn) (k : A -> M B) (w : World) :
  bind (throw e) k w = (Throw e, w).
Proof. reflexivity. Qed.

Lemma bind_update (f : World -> World) (k : unit -> M B) (w : World) :
  bind (update f) k w = k tt (f w).
Proof. reflexivity. Qed.

Lemma bind_current (f : World -> A) (k : A -> M B) (w : World) :
  bind (current f) k w = k (f w) w.
Proof. reflexivity. Qed.

Lemma try_catch_returns (body : M A) (handler : Exn -> M A) (a : A) (w w' : World) :
  body w = (Normal a, w') -> try_catch body handler w = (Normal a, w').
Proof. unfold try_catch. intros ->. reflexivity. Qed.

Lemma try_catch_throws (body : M A) (handler : Exn -> M A) (e : Exn) (w w' : World) :
  body w = (Throw e, w') -> try_catch body handler w = handler e w'.
Proof. unfold try_catch. intros ->. reflexivity. Qed.
End Computing.

Lemma log_log (a b : list Effect) (w : World) : log b (log a w) = log (a ++ b) w.
Proof. unfold log. simpl. by rewrite app_assoc. Qed.

Lemma truthy_string (s : string) : s <> "" -> truthy (JsString s) = true.
Proof.
  intros Hs. simpl. destruct (String.eqb_spec s ""); [contradiction | reflexivity].
Qed.

Ltac returns H := erewrite call_returns by exact H.
Ltac reads H := erewrite eval_returns by exact H.

(** ** Sending *)

Section Sending.
Context {pgp : openpgp.Library} {json : JSON.Builtin}.

(** The [try] block when every step of the signing returns and a
    connection is at hand when the awaits are over. *)
Lemma sign_and_send_sends (kp : StoredKeypair) (text : string) (st : Stamp)
    (w : World) (c : nat) sk m (sig : string) :
  openpgp.readPrivateKey (privateKeyArmored kp) = inr sk ->
  openpgp.createMessage (JsString text) = inr m ->
  openpgp.sign m sk = inr sig ->
  connectionRef w = Some c ->
  sign_and_send kp text st w
  = (Normal tt,
     w |> log [Pgp CallReadPrivateKey; Pgp CallCreateMessage; Pgp CallSign]
       |> send c (WireMessage text sig (publicKeyArmored kp))
       |> addMessage me (JsString text) (Some true) st).
Proof.
  intros Hsk Hm Hsig Hc. unfold sign_and_send.
  apply try_catch_returns.
  returns Hsk. returns Hm. returns Hsig.
  rewrite bind_current. rewrite !log_log. simpl connectionRef. rewrite Hc.
  rewrite bind_update. reflexivity.
Qed.

(** The [try] block when a step of the signing throws: the [catch] sets the
    advisory and nothing else but the call log changes. *)
Lemma sign_and_send_fails (kp : StoredKeypair) (text : string) (st : Stamp)
    (w : World) (calls : list Effect) :
  signing_fails kp text calls ->
  sign_and_send kp text st w
  = (Normal tt, w |> log calls |> setStatusMessage "Failed to sign message.").
Proof.
  intros Hfail. unfold sign_and_send.
  destruct Hfail as [e He | sk e Hsk He | sk m e Hsk Hm He].
  - erewrite try_catch_throws; [reflexivity |].
    erewrite call_throws by exact He. reflexivity.
  - erewrite try_catch_throws; [reflexivity |].
    returns Hsk. erewrite call_throws by exact He. by rewrite log_log.
  - erewrite try_catch_throws; [reflexivity |].
    returns Hsk. returns Hm. erewrite call_throws by exact He.
    by rewrite !log_log.
Qed.

Lemma may_send_keypair (w : World) :
  may_send w = true -> exists kp, keypair w = Some kp.
Proof.
  unfold may_send. destruct (connectionRef w); [| discriminate].
  intros H. apply andb_true_iff in H as [_ H].
  apply bool_decide_eq_true in H as [kp H]. by exists kp.
Qed.

End Sending.

Section SendGuarantees.
Context {pgp : openpgp.Library} {json : JSON.Builtin}.

(** Signing either fails at some step or yields an armored signature. *)
Lemma signing_outcome (kp : StoredKeypair) (text : string) :
  (exists calls, signing_fails kp text calls) \/
  (exists sk m sig,
     openpgp.readPrivateKey (privateKeyArmored kp) = inr sk /\
     openpgp.createMessage (JsString text) = inr m /\
     openpgp.sign m sk = inr sig).
Proof.
  destruct (openpgp.readPrivateKey (privateKeyArmored kp)) as [e | sk] eqn:Hsk.
  { left. eexists. by eapply fails_readPrivateKey. }
  destruct (openpgp.createMessage (JsString text)) as [e | m] eqn:Hm.
  { left. eexists. by eapply fails_message. }
  destruct (openpgp.sign m sk) as [e | sig] eqn:Hsig.
  { left. eexists. by eapply fails_sign. }
  right. by exists sk, m, sig.
Qed.

Lemma signing_fails_only_pgp (kp : StoredKeypair) (text : string) (calls : list Effect) :
  signing_fails kp text calls -> Forall (fun c => exists p, c = Pgp p) calls.
Proof. intros []; repeat constructor; eauto. Qed.

(** The connection went away during the awaits: calling [send] on [null]
    throws inside the [try], and the [catch] reports a signing failure. *)
Lemma sign_and_send_no_connection (kp : StoredKeypair) (text : string) (st : Stamp)
    (w : World) sk m (sig : string) :
  openpgp.readPrivateKey (privateKeyArmored kp) = inr sk ->
  openpgp.createMessage (JsString text) = inr m ->
  openpgp.sign m sk = inr sig ->
  connectionRef w = None ->
  sign_and_send kp text st w
  = (Normal tt,
     w |> log [Pgp CallReadPrivateKey; Pgp CallCreateMessage; Pgp CallSign]
       |> setStatusMessage "Failed to sign message.").
Proof.
  intros Hsk Hm Hsig Hc. unfold sign_and_send.
  erewrite try_catch_throws; [reflexivity |].
  returns Hsk. returns Hm. returns Hsig.
  rewrite bind_current. rewrite !log_log. simpl connectionRef. rewrite Hc.
  reflexivity.
Qed.

(** C8. Send is gated on Open: when handleSendMessage is called while no
    connection handle is held, or while the held handle's [open] flag is
    false, it returns at its guard: nothing is sent, no entry is appended,
    and the world in which the call completes is left exactly as it is. *)
Theorem send_gated_on_open (text : string) (st : Stamp) (w0 w1 : World) :
  (connectionRef w0 = None \/
   exists c, connectionRef w0 = Some c /\ is_open w0 c = false) ->
  handleSendMessage_async text st w0 w1 = (Normal tt, w1).
Proof.
  intros Hclosed. unfold handleSendMessage_async, may_send.
  destruct Hclosed as [-> | (c & -> & ->)]; reflexivity.
Qed.



End SendGuarantees.

(** ** Receiving *)

Section Receiving.
Context {pgp : openpgp.Library} {json : JSON.Builtin}.

(** The guard of App.tsx 116 on anything but [null] and [undefined]. *)
Lemma payload_incomplete_reads (data : JsValue) (w : World) :
  data <> JsNull -> data <> JsUndefined ->
  payload_incomplete data w
  = (Normal (negb (truthy (field data "text")
                   && truthy (field data "signature")
                   && truthy (field data "publicKey"))), w).
Proof.
  intros Hnull Hundef. unfold payload_incomplete, field.
  destruct data; try contradiction; simpl; try reflexivity.
  unfold bind, eval, ret. simpl.
  destruct (truthy (own_prop props "text")); [| reflexivity].
  destruct (truthy (own_prop props "signature")); reflexivity.
Qed.

Lemma envelope_not_null (data text signature publicKey : JsValue) :
  envelope data text signature publicKey ->
  data <> JsNull /\ data <> JsUndefined.
Proof.
  intros (_ & Ht & _). split; intros ->; discriminate.
Qed.

Lemma envelope_field (data text signature publicKey : JsValue) :
  envelope data text signature publicKey ->
  field data "text" = text /\ field data "signature" = signature
  /\ field data "publicKey" = publicKey.
Proof.
  intros (_ & Ht & _ & Hs & _ & Hk & _). unfold field.
  by rewrite Ht, Hs, Hk.
Qed.

Lemma envelope_complete (data text signature publicKey : JsValue) (w : World) :
  envelope data text signature publicKey ->
  payload_incomplete data w = (Normal false, w).
Proof.
  intros Henv. destruct (envelope_not_null _ _ _ _ Henv) as [Hn Hu].
  rewrite payload_incomplete_reads by assumption.
  destruct (envelope_field _ _ _ _ Henv) as (-> & -> & ->).
  destruct Henv as (_ & _ & -> & _ & -> & _ & ->). reflexivity.
Qed.

Lemma first_verified_some (entry : openpgp.VerificationEntry)
    (rest : list openpgp.VerificationEntry) :
  first_verified {| openpgp.signatures := entry :: rest |}
  = ret (openpgp.verified entry).
Proof. reflexivity. Qed.

Lemma first_verified_none :
  first_verified {| openpgp.signatures := [] |}
  = throw (TypeError "Cannot destructure property 'verified' of undefined").
Proof. reflexivity. Qed.

(** The [try] block on an envelope whose signature verifies. *)
Lemma verify_and_show_verified (connection_peer : string)
    (data text signature publicKey : JsValue) pk (st : Stamp) (w : World) :
  envelope data text signature publicKey ->
  signature_verifies text signature publicKey pk ->
  verify_and_show connection_peer data st w
  = (Normal tt,
     w |> log verify_calls
       |> (if negb (String.eqb (openpgp.getFingerprint pk) connection_peer)
           then setStatusMessage "Peer fingerprint mismatch."
           else fun w => w)
       |> addMessage peer text (Some true) st).
Proof.
  intros (_ & Ht & _ & Hs & _ & Hk & _) (m & s & entry & rest & ok & Hm & Hsig & Hpk & Hv & Hok).
  unfold verify_and_show.
  reads Ht. returns Hm. reads Hs. returns Hsig. reads Hk. returns Hpk.
  returns Hv. rewrite !log_log. simpl app.
  rewrite first_verified_some, bind_ret.
  reads Hok.
  destruct (negb (String.eqb (openpgp.getFingerprint pk) connection_peer)).
  - rewrite bind_update. reads Ht. reflexivity.
  - rewrite bind_ret. reads Ht. reflexivity.
Qed.

(** The [try] block on an envelope for which some step fails: it throws,
    having written nothing but the call log. *)
Lemma verify_and_show_throws (connection_peer : string)
    (data text signature publicKey : JsValue) (calls : list Effect)
    (st : Stamp) (w : World) :
  envelope data text signature publicKey ->
  verification_fails text signature publicKey calls ->
  exists e, verify_and_show connection_peer data st w = (Throw e, log calls w).
Proof.
  intros (_ & Ht & _ & Hs & _ & Hk & _) Hfail. unfold verify_and_show.
  destruct Hfail as [e He | m e Hm He | m s e Hm Hsig He | m s pk e Hm Hsig Hpk He
                    | m s pk Hm Hsig Hpk Hv | m s pk entry rest e Hm Hsig Hpk Hv He].
  - exists e. reads Ht. by erewrite call_throws by exact He.
  - exists e. reads Ht. returns Hm. reads Hs.
    erewrite call_throws by exact He. by rewrite !log_log.
  - exists e. reads Ht. returns Hm. reads Hs. returns Hsig. reads Hk.
    erewrite call_throws by exact He. by rewrite !log_log.
  - exists e. reads Ht. returns Hm. reads Hs. returns Hsig. reads Hk. returns Hpk.
    erewrite call_throws by exact He. by rewrite !log_log.
  - eexists. reads Ht. returns Hm. reads Hs. returns Hsig. reads Hk. returns Hpk.
    returns Hv. rewrite !log_log. by rewrite first_verified_none, bind_throw.
  - exists e. reads Ht. returns Hm. reads Hs. returns Hsig. reads Hk. returns Hpk.
    returns Hv. rewrite !log_log. rewrite first_verified_some, bind_ret.
    by erewrite eval_throws by exact He.
Qed.

(** handleIncoming on an envelope is its [try]/[catch]. *)
Lemma handleIncoming_envelope (connection_peer : string)
    (data text signature publicKey : JsValue) (st : Stamp) (w : World) :
  envelope data text signature publicKey ->
  handleIncoming connection_peer data st w
  = try_catch (verify_and_show connection_peer data st)
      (fun _ => let* text := eval (get_prop data "text") in
                update (addMessage peer text (Some false) st)) w.
Proof.
  intros Henv. unfold handleIncoming.
  destruct Henv as (Hstr & Henv'). rewrite Hstr.
  unfold bind at 1.
  rewrite (envelope_complete data text signature publicKey w)
    by (split; [exact Hstr | exact Henv']).
  reflexivity.
Qed.

(** An envelope whose signature verifies is shown verified; the advisory
    is raised exactly when the key's fingerprint is not [connection.peer]. *)
Lemma handleIncoming_verified (connection_peer : string)
    (data text signature publicKey : JsValue) pk (st : Stamp) (w : World) :
  envelope data text signature publicKey ->
  signature_verifies text signature publicKey pk ->
  handleIncoming connection_peer data st w
  = (Normal tt,
     w |> log verify_calls
       |> (if negb (String.eqb (openpgp.getFingerprint pk) connection_peer)
           then setStatusMessage "Peer fingerprint mismatch."
           else fun w => w)
       |> addMessage peer text (Some true) st).
Proof.
  intros Henv Hver.
  rewrite (handleIncoming_envelope _ _ _ _ _ _ _ Henv).
  apply try_catch_returns. by eapply verify_and_show_verified.
Qed.

Lemma handleIncoming_degraded (connection_peer : string)
    (data text signature publicKey : JsValue) (calls : list Effect)
    (st : Stamp) (w : World) :
  envelope data text signature publicKey ->
  verification_fails text signature publicKey calls ->
  handleIncoming connection_peer data st w
  = (Normal tt, w |> log calls |> addMessage peer text (Some false) st).
Proof.
  intros Henv Hfail.
  rewrite (handleIncoming_envelope _ _ _ _ _ _ _ Henv).
  destruct (verify_and_show_throws connection_peer _ _ _ _ _ st w Henv Hfail) as [e He].
  erewrite try_catch_throws by exact He.
  destruct Henv as (_ & Ht & _). reads Ht. reflexivity.
Qed.

End Receiving.

Section ReceiveGuarantees.
Context {pgp : openpgp.Library} {json : JSON.Builtin}.

(** Verification either goes through or fails at some step. *)
Lemma verification_outcome (text signature publicKey : JsValue) :
  (exists pk, signature_verifies text signature publicKey pk) \/
  (exists calls, verification_fails text signature publicKey calls).
Proof.
  destruct (openpgp.createMessage text) as [e | m] eqn:Hm.
  { right. eexists. by eapply fails_createMessage. }
  destruct (openpgp.readSignature signature) as [e | s] eqn:Hs.
  { right. eexists. by eapply fails_readSignature. }
  destruct (openpgp.readKey publicKey) as [e | pk] eqn:Hpk.
  { right. eexists. by eapply fails_readKey. }
  destruct (openpgp.verify m s pk) as [e | [[| entry rest]]] eqn:Hv.
  { right. eexists. by eapply fails_verify. }
  { right. eexists. by eapply fails_no_signature. }
  destruct (openpgp.verified entry) as [e | ok] eqn:Hok.
  { right. eexists. by eapply fails_rejected. }
  left. exists pk. unfold signature_verifies. rewrite Hm, Hs, Hpk.
  by exists m, s, entry, rest, ok.
Qed.

Lemma verification_fails_first_call (text signature publicKey : JsValue)
    (calls : list Effect) :
  verification_fails text signature publicKey calls ->
  exists rest, calls = Pgp CallCreateMessage :: rest.
Proof. intros []; eauto. Qed.

Lemma get_prop_field (data : JsValue) (name : string) :
  data <> JsNull -> data <> JsUndefined ->
  get_prop data name = inr (field data name).
Proof. intros Hn Hu. unfold field. by destruct data. Qed.

(** handleIncoming on a payload that is no string and fails the guard. *)
Lemma handleIncoming_incomplete (connection_peer : string) (data : JsValue)
    (st : Stamp) (w : World) :
  typeof_string data = false ->
  data <> JsNull -> data <> JsUndefined ->
  truthy (field data "text") && truthy (field data "signature")
    && truthy (field data "publicKey") = false ->
  handleIncoming connection_peer data st w
  = (Normal tt, addMessage peer (JSON.stringify data) (Some false) st w).
Proof.
  intros Hstr Hn Hu Hall. unfold handleIncoming. rewrite Hstr.
  unfold bind at 1.
  rewrite payload_incomplete_reads by assumption. by rewrite Hall.
Qed.




(** C4, as the code has it. Decoding is three-way by truthiness: for every
    payload other than [null] and [undefined], a string is shown as it is
    with [verified: false] and no call to openpgp; otherwise, when its
    [text], [signature] and [publicKey] are all truthy, verification is
    attempted and the text is shown with the verdict; otherwise its JSON
    text is shown with [verified: false] and no call to openpgp. *)
Theorem decode_by_truthiness (connection_peer : string) (data : JsValue)
    (st : Stamp) (w : World) :
  data <> JsNull -> data <> JsUndefined ->
  handled_as (classify data) connection_peer data st w.
Proof.
  intros Hn Hu. unfold classify.
  destruct (typeof_string data) eqn:Hstr.
  { simpl. unfold handleIncoming. by rewrite Hstr. }
  destruct (truthy (field data "text") && truthy (field data "signature")
            && truthy (field data "publicKey")) eqn:Hall.
  - apply andb_true_iff in Hall as [Hall Hk].
    apply andb_true_iff in Hall as [Ht Hs].
    assert (envelope data (field data "text") (field data "signature")
              (field data "publicKey")) as Henv.
    { unfold envelope. rewrite !get_prop_field by assumption. by repeat split. }
    simpl.
    destruct (verification_outcome (field data "text") (field data "signature")
                (field data "publicKey")) as [[pk Hver] | [calls Hfail]].
    + eexists _, _, true. split.
      * by eapply handleIncoming_verified.
      * split; [| by destruct (negb _)]. by destruct (negb _).
    + destruct (verification_fails_first_call _ _ _ _ Hfail) as [rest ->].
      eexists _, rest, false. split.
      * by eapply handleIncoming_degraded.
      * by split.
  - simpl. by apply handleIncoming_incomplete.
Qed.

(** C1, as the code has it. Round-trip authentication for non-empty text:
    for every valid keypair and every text other than the empty string,
    what handleSendMessage sends is, at a receiver whose connection's
    remote identifier is the fingerprint of the keypair's public key,
    appended as [{sender: peer, text, verified: true}] with no
    fingerprint-mismatch advisory. *)
Theorem roundtrip_verified (kp : StoredKeypair) (T : string) :
  valid_keypair kp -> T <> "" -> round_trip kp T.
Proof.
  intros (Hpub & sk & pk0 & Hsk & Hpk0 & Hsign) HT.
  intros st st' w0 w1 wr c pk Hguard Hkp Hc Hpk.
  rewrite Hpk0 in Hpk. injection Hpk as ->.
  destruct (Hsign T) as (m & sig & s & entry & rest & ok & Hm & Hsig & Hne & Hs & Hv & Hok).
  exists [Pgp CallReadPrivateKey; Pgp CallCreateMessage; Pgp CallSign],
         (WireMessage T sig (publicKeyArmored kp)).
  split.
  { unfold handleSendMessage_async. rewrite Hguard, Hkp.
    rewrite (sign_and_send_sends kp T st w1 c sk m sig Hsk Hm Hsig Hc).
    simpl. by rewrite <- app_assoc. }
  assert (envelope (WireMessage T sig (publicKeyArmored kp))
            (JsString T) (JsString sig) (JsString (publicKeyArmored kp))) as Henv.
  { unfold envelope. repeat split; try reflexivity; by apply truthy_string. }
  assert (signature_verifies (JsString T) (JsString sig)
            (JsString (publicKeyArmored kp)) pk) as Hver.
  { by exists m, s, entry, rest, ok. }
  cbv zeta.
  rewrite (handleIncoming_verified _ _ _ _ _ pk st' wr Henv Hver).
  rewrite String.eqb_refl. by repeat split.
Qed.

End ReceiveGuarantees.

(** ** The connection lifecycle *)

Section Lifecycle.
Context {pgp : openpgp.Library} {json : JSON.Builtin}.

Lemma is_open_lookup (w : World) (c : nat) :
  is_open w c = true ->
  exists k, connections w !! c = Some k /\ DataConnection.open k = true.
Proof.
  unfold is_open. destruct (connections w !! c) as [k |]; [| discriminate].
  intros Hk. by exists k.
Qed.

(** After [close c] the object [c] is not open, whatever else is there. *)
Lemma close_closes (c : nat) (w : World) : is_open (close c w) c = false.
Proof.
  unfold is_open, close. simpl. rewrite list_lookup_alter_eq.
  by destruct (connections w !! c).
Qed.

Lemma close_other (c c' : nat) (w : World) :
  c <> c' -> is_open (close c w) c' = is_open w c'.
Proof.
  intros Hne. unfold is_open, close. simpl.
  by rewrite list_lookup_alter_ne.
Qed.



(** C6, as the code has it. A connection-level error resets to ready: the
    advisory becomes the error's message (or "Connection error." when the
    message is empty), the connection handle is cleared, and the
    controller is neither connected nor connecting.  An endpoint-level
    error only sets the advisory to the error's message (or "Peer error."
    when it is empty): the handle and the two flags stay as they were. *)
Theorem error_handlers (error : TransportError) (w : World) :
  (let w' := connection_on_error error w in
   statusMessage w' = or_else (message error) "Connection error." /\
   connectionRef w' = None /\
   isConnected w' = false /\
   isConnecting w' = false)
  /\
  (let w' := peer_on_error error w in
   statusMessage w' = or_else (message error) "Peer error." /\
   connectionRef w' = connectionRef w /\
   isConnected w' = isConnected w /\
   isConnecting w' = isConnecting w).
Proof. by repeat split. Qed.


End Lifecycle.

(** ** What every reachable world satisfies *)

Section Reachable.
Context {pgp : openpgp.Library} {json : JSON.Builtin}.

(** A payload of [null] (or [undefined]) makes the property read of
    App.tsx 116 throw outside the [try]: the promise rejects and nothing
    is shown. *)
Lemma handleIncoming_null_rejects (connection_peer : string) (st : Stamp) (w : World) :
  handleIncoming connection_peer JsNull st w
  = (Throw (TypeError "Cannot read properties of null"), w)
  /\ handleIncoming connection_peer JsUndefined st w
     = (Throw (TypeError "Cannot read properties of undefined"), w).
Proof. by split. Qed.

(** handleIncoming touches neither the connection handle nor the
    transport's objects. *)
Lemma handleIncoming_frame (connection_peer : string) (data : JsValue)
    (st : Stamp) (w : World) :
  connectionRef (snd (handleIncoming connection_peer data st w)) = connectionRef w
  /\ connections (snd (handleIncoming connection_peer data st w)) = connections w.
Proof.
  destruct (typeof_string data) eqn:Hstr.
  { unfold handleIncoming. by rewrite Hstr. }
  assert (data = JsNull \/ data = JsUndefined
          \/ (data <> JsNull /\ data <> JsUndefined)) as [-> | [-> | [Hn Hu]]].
  { destruct data; auto; right; right; by split. }
  { by split. }
  { by split. }
  destruct (truthy (field data "text") && truthy (field data "signature")
            && truthy (field data "publicKey")) eqn:Hall.
  - apply andb_true_iff in Hall as [Hall Hk].
    apply andb_true_iff in Hall as [Ht Hs].
    assert (envelope data (field data "text") (field data "signature")
              (field data "publicKey")) as Henv.
    { unfold envelope. rewrite !get_prop_field by assumption. by repeat split. }
    destruct (verification_outcome (field data "text") (field data "signature")
                (field data "publicKey")) as [[pk Hver] | [calls Hfail]].
    + rewrite (handleIncoming_verified _ _ _ _ _ pk st w Henv Hver).
      by destruct (negb _).
    + by rewrite (handleIncoming_degraded _ _ _ _ _ calls st w Henv Hfail).
  - by rewrite handleIncoming_incomplete.
Qed.

(** handleSendMessage touches neither of them either. *)
Lemma handleSendMessage_frame (text : string) (st : Stamp) (w0 w1 : World) :
  connectionRef (snd (handleSendMessage_async text st w0 w1)) = connectionRef w1
  /\ connections (snd (handleSendMessage_async text st w0 w1)) = connections w1.
Proof.
  unfold handleSendMessage_async.
  destruct (may_send w0); [| by split].
  destruct (keypair w0) as [kp |]; [| by split].
  destruct (signing_outcome kp text)
    as [(cs & Hfail) | (sk & m & sig & Hsk & Hm & Hsig)].
  - by rewrite (sign_and_send_fails kp text st w1 cs Hfail).
  - destruct (connectionRef w1) as [c |] eqn:Hc.
    + by rewrite (sign_and_send_sends kp text st w1 c sk m sig Hsk Hm Hsig Hc).
    + by rewrite (sign_and_send_no_connection kp text st w1 sk m sig Hsk Hm Hsig Hc).
Qed.

Lemma step_tracked_allocated (w : World) (ev : Event) :
  tracked_is_allocated w -> tracked_is_allocated (step w ev).
Proof.
  unfold tracked_is_allocated. intros Hw.
  destruct ev as [value | yields | | text st | | remote | error
                 | c0 | c0 data st | c0 | c0 error]; simpl.
  - by destruct (_ || _).
  - destruct (_ || _); [exact Hw |].
    unfold handleConnect.
    destruct (_ || _); [exact Hw |].
    destruct (negb (peerReady w)); [exact Hw |].
    unfold close_current_if_open.
    destruct (connectionRef w) as [c1 |] eqn:Href.
    + specialize (Hw c1 eq_refl).
      destruct (is_open w c1), yields; simpl; intros c Hc;
        rewrite ?Href in Hc; injection Hc as Hc; subst c;
        rewrite ?length_app, ?length_alter; simpl; lia.
    + destruct yields; simpl; intros c Hc; rewrite ?Href in Hc; [| discriminate].
      injection Hc as Hc. subst c. rewrite length_app. simpl. lia.
  - destruct (isConnected w); [| exact Hw].
    unfold handleDisconnect. destruct (connectionRef w) as [c1 |] eqn:Href.
    + simpl. intros c Hc. rewrite length_alter. rewrite Href in Hc. by apply Hw.
    + simpl. intros c Hc. rewrite Href in Hc. discriminate.
  - destruct (_ || _); [exact Hw |].
    unfold handleSendMessage.
    destruct (handleSendMessage_frame (trim text) st w w) as [-> ->]. exact Hw.
  - exact Hw.
  - intros c [= Hc]. subst c. unfold close_current_if_open. simpl.
    destruct (connectionRef w) as [c1 |]; [destruct (is_open _ c1) |];
      simpl; rewrite ?length_alter, length_app; simpl; lia.
  - exact Hw.
  - destruct (connections w !! c0); [| exact Hw].
    simpl. intros c Hc. rewrite length_alter. by apply Hw.
  - destruct (connections w !! c0) as [k |]; [| exact Hw].
    destruct (handleIncoming_frame (DataConnection.peer k) data st w) as [-> ->].
    exact Hw.
  - destruct (connections w !! c0); [| exact Hw]. simpl. intros c [=].
  - destruct (connections w !! c0); [| exact Hw]. simpl. intros c [=].
Qed.

(** Whatever happens after mounting, the tracked handle is allocated. *)
Lemma tracked_allocated (fingerprint : string) (kp : StoredKeypair) (evs : list Event) :
  tracked_is_allocated (run (mounted fingerprint kp) evs).
Proof.
  assert (forall w, tracked_is_allocated w -> tracked_is_allocated (run w evs)) as Hrun.
  { induction evs as [| ev evs IH]; intros w Hw; [exact Hw |].
    simpl. apply IH. by apply step_tracked_allocated. }
  apply Hrun. intros c [=].
Qed.

End Reachable.

(** ** Concrete runs *)

Section Examples.
#[local] Existing Instance Sample.pgp.
#[local] Existing Instance Sample.json.

(** Every keypair of the stand-in scheme is valid. *)
Lemma sample_keys_valid (owner : string) : valid_keypair (Sample.keys owner).
Proof.
  split; [discriminate |].
  exists owner, owner. split; [reflexivity |]. split; [reflexivity |].
  intros T.
  exists T, (Sample.signature_of owner T), (Sample.signature_of owner T),
    {| openpgp.verified := inr true |}, [], true.
  repeat split; try reflexivity; try discriminate.
  simpl. unfold Sample.check. by rewrite String.eqb_refl.
Qed.

(** C1 fails for the empty text: the keypair is valid and the envelope is
    well signed, but its [text] is falsy, so the receiver takes it for a
    malformed payload and shows it unverified. *)
Lemma roundtrip_empty_text_unverified :
  valid_keypair (Sample.keys "alice") /\
  ~ round_trip (Sample.keys "alice") "".
Proof.
  split; [apply sample_keys_valid |].
  intros Hround.
  destruct (Hround Sample.noon Sample.noon
              (Sample.app "alice" "bob" true) (Sample.app "alice" "bob" true)
              (Sample.app "bob" "alice" true) 0 "alice"
              eq_refl eq_refl eq_refl eq_refl)
    as (calls & payload & Hsent & Hshown).
  vm_compute in Hsent.
  apply (app_inj_tail [Pgp CallReadPrivateKey; Pgp CallCreateMessage; Pgp CallSign]
           calls) in Hsent as [_ [= <-]].
  destruct Hshown as (_ & Hmessages & _).
  vm_compute in Hmessages. discriminate.
Qed.

(** C1 on a run: alice's "hello" reaches bob verified. *)
Lemma roundtrip_verified_witness :
  valid_keypair (Sample.keys "alice") /\ "hello" <> "" /\
  round_trip (Sample.keys "alice") "hello".
Proof.
  split; [apply sample_keys_valid |]. split; [discriminate |].
  apply roundtrip_verified; [apply sample_keys_valid | discriminate].
Defined.



(** C4 fails on an envelope whose [text] is the empty string: all three
    fields are strings, so the spec's decode calls it an envelope, yet the
    handler shows its JSON text unverified and never calls openpgp. *)
Lemma decode_empty_text_is_malformed :
  spec_decode Sample.empty_text = DecodedEnvelope /\
  handled_as Malformed "fp-alice" Sample.empty_text Sample.noon
    (Sample.app "bob" "alice" true) /\
  ~ handled_as (spec_decode Sample.empty_text) "fp-alice" Sample.empty_text
      Sample.noon (Sample.app "bob" "alice" true).
Proof.
  split; [reflexivity |]. split; [reflexivity |].
  intros (w' & calls & verdict & Hrun & Htrace & _).
  vm_compute in Hrun. injection Hrun as <-.
  vm_compute in Htrace. discriminate.
Qed.

(** C4 on a run: alice's "hello" is neither [null] nor [undefined], and
    is handled as the envelope it classifies as. *)
Lemma decode_by_truthiness_witness :
  classify Sample.hello = DecodedEnvelope /\
  handled_as DecodedEnvelope "fp-alice" Sample.hello Sample.noon
    (Sample.app "bob" "alice" true).
Proof.
  split; [reflexivity |].
  apply (decode_by_truthiness "fp-alice" Sample.hello Sample.noon
           (Sample.app "bob" "alice" true)); discriminate.
Defined.


(** C8 on a run: the connection alice holds has not opened yet. *)
Lemma send_gated_on_open_witness :
  is_open (Sample.app "alice" "bob" false) 0 = false /\
  handleSendMessage "hello" Sample.noon (Sample.app "alice" "bob" false)
  = (Normal tt, Sample.app "alice" "bob" false).
Proof.
  split; [reflexivity |].
  apply (send_gated_on_open "hello" Sample.noon).
  right. exists 0. by split.
Defined.





(** C6 fails for an endpoint-level error: alice is connected to bob when
    the endpoint reports an error; the advisory shows the message, but the
    connection handle is kept and the app stays connected. *)
Lemma endpoint_error_keeps_connection :
  ~ reset_to_ready Sample.endpoint_error
      (run (mounted "fp-alice" (Sample.keys "alice"))
         Sample.connected_then_endpoint_error)
  /\ connectionRef (run (mounted "fp-alice" (Sample.keys "alice"))
                      Sample.connected_then_endpoint_error) = Some 0
  /\ isConnected (run (mounted "fp-alice" (Sample.keys "alice"))
                    Sample.connected_then_endpoint_error) = true.
Proof.
  split; [| by split].
  intros (_ & Href & _). vm_compute in Href. discriminate.
Qed.

End Examples.

(** * Further properties of the handlers *)

(** ** What any inbound payload does *)

Section Incoming.
Context {pgp : openpgp.Library} {json : JSON.Builtin}.

Lemma log_nothing (w : World) : log [] w = w.
Proof. destruct w. unfold log. simpl. by rewrite app_nil_r. Qed.

Lemma verification_fails_only_pgp (text signature publicKey : JsValue)
    (calls : list Effect) :
  verification_fails text signature publicKey calls ->
  Forall (fun c => exists p, c = Pgp p) calls.
Proof. intros []; repeat constructor; eauto. Qed.

Lemma verify_calls_only_pgp : Forall (fun c => exists p, c = Pgp p) verify_calls.
Proof. repeat constructor; eauto. Qed.

(** Every payload but [null] and [undefined] ends in one addMessage, after
    calls to openpgp only; a [true] verdict comes from a verification that
    ran to its end, and only then can the advisory be raised. *)
Lemma handleIncoming_outcome (connection_peer : string) (data : JsValue)
    (st : Stamp) (w : World) :
  data <> JsNull -> data <> JsUndefined ->
  exists (calls : list Effect) (mismatch : bool) (shown : JsValue) (verdict : bool),
    Forall (fun c => exists p, c = Pgp p) calls /\
    handleIncoming connection_peer data st w
    = (Normal tt,
       w |> log calls
         |> (if mismatch then setStatusMessage "Peer fingerprint mismatch."
             else fun w => w)
         |> addMessage peer shown (Some verdict) st) /\
    (verdict = true ->
     shown = field data "text" /\
     exists pk,
       envelope data (field data "text") (field data "signature")
         (field data "publicKey") /\
       signature_verifies (field data "text") (field data "signature")
         (field data "publicKey") pk /\
       mismatch = negb (String.eqb (openpgp.getFingerprint pk) connection_peer)) /\
    (verdict = false -> mismatch = false).
Proof.
  intros Hn Hu.
  destruct (typeof_string data) eqn:Hstr.
  { exists [], false, data, false. split; [constructor |]. split.
    - unfold handleIncoming. by rewrite Hstr, log_nothing.
    - by split. }
  destruct (truthy (field data "text") && truthy (field data "signature")
            && truthy (field data "publicKey")) eqn:Hall.
  - pose proof Hall as Hall'.
    apply andb_true_iff in Hall as [Hall Hk].
    apply andb_true_iff in Hall as [Ht Hs].
    assert (envelope data (field data "text") (field data "signature")
              (field data "publicKey")) as Henv.
    { unfold envelope. rewrite !get_prop_field by assumption. by repeat split. }
    destruct (verification_outcome (field data "text") (field data "signature")
                (field data "publicKey")) as [[pk Hver] | [calls Hfail]].
    + exists verify_calls,
        (negb (String.eqb (openpgp.getFingerprint pk) connection_peer)),
        (field data "text"), true.
      split; [apply verify_calls_only_pgp |]. split.
      * by rewrite (handleIncoming_verified _ _ _ _ _ pk st w Henv Hver).
      * split; [| discriminate]. intros _. split; [reflexivity |]. by exists pk.
    + exists calls, false, (field data "text"), false.
      split; [by eapply verification_fails_only_pgp |]. split.
      * by rewrite (handleIncoming_degraded _ _ _ _ _ calls st w Henv Hfail).
      * by split.
  - exists [], false, (JSON.stringify data), false. split; [constructor |]. split.
    + rewrite handleIncoming_incomplete by assumption. by rewrite log_nothing.
    + by split.
Qed.

Lemma sent_app (a b : list Effect) : sent (a ++ b) = sent a ++ sent b.
Proof. apply omap_app. Qed.

Lemma connects_app (a b : list Effect) : connects (a ++ b) = connects a ++ connects b.
Proof. apply omap_app. Qed.

Lemma sent_only_pgp (calls : list Effect) :
  Forall (fun c => exists p, c = Pgp p) calls -> sent calls = [].
Proof.
  induction 1 as [| c calls [p ->] _ IH]; [reflexivity |]. exact IH.
Qed.

Lemma connects_only_pgp (calls : list Effect) :
  Forall (fun c => exists p, c = Pgp p) calls -> connects calls = [].
Proof.
  induction 1 as [| c calls [p ->] _ IH]; [reflexivity |]. exact IH.
Qed.

(** X1. Every inbound payload is shown, in whatever state the app is: a
    payload other than [null] and [undefined] makes the handler complete
    normally and append exactly one entry, from the peer, with a verdict;
    [null] and [undefined] make it throw and leave the world as it is. *)
Theorem incoming_shows_one_entry (connection_peer : string) (data : JsValue)
    (st : Stamp) (w : World) :
  (data = JsNull \/ data = JsUndefined ->
   exists e, handleIncoming connection_peer data st w = (Throw e, w))
  /\
  (data <> JsNull /\ data <> JsUndefined ->
   exists w' m,
     handleIncoming connection_peer data st w = (Normal tt, w') /\
     messages w' = messages w ++ [m] /\
     sender m = peer /\
     exists verdict, verified m = Some verdict).
Proof.
  split.
  - intros [-> | ->]; eexists; reflexivity.
  - intros [Hn Hu].
    destruct (handleIncoming_outcome connection_peer data st w Hn Hu)
      as (calls & mismatch & shown & verdict & _ & Hrun & _).
    eexists _, _. split; [exact Hrun |].
    split; [by destruct mismatch |]. split; [reflexivity |]. by exists verdict.
Qed.

(** X2. The verified flag is sound: when the entry a payload leaves in the
    log says [verified: true], the payload passed the guard, every step of
    the verification of its own three fields returned, the awaited verdict
    fulfilled, and the text shown is the payload's [text]. *)
Theorem verified_entry_sound (connection_peer : string) (data : JsValue)
    (st : Stamp) (w w' : World) (r : Completion unit) (m : ChatMessage) :
  handleIncoming connection_peer data st w = (r, w') ->
  messages w' = messages w ++ [m] ->
  verified m = Some true ->
  text m = field data "text" /\
  exists pk,
    envelope data (field data "text") (field data "signature")
      (field data "publicKey") /\
    signature_verifies (field data "text") (field data "signature")
      (field data "publicKey") pk.
Proof.
  intros Hrun Hmsg Htrue.
  assert (data = JsNull \/ data = JsUndefined
          \/ (data <> JsNull /\ data <> JsUndefined)) as [-> | [-> | [Hn Hu]]].
  { destruct data; auto; right; right; by split. }
  { injection Hrun as _ <-. rewrite <- (app_nil_r (messages w)) in Hmsg at 1.
    apply app_inv_head in Hmsg. discriminate. }
  { injection Hrun as _ <-. rewrite <- (app_nil_r (messages w)) in Hmsg at 1.
    apply app_inv_head in Hmsg. discriminate. }
  destruct (handleIncoming_outcome connection_peer data st w Hn Hu)
    as (calls & mismatch & shown & verdict & _ & Hout & Hyes & _).
  rewrite Hout in Hrun. injection Hrun as _ <-.
  assert (messages w ++ [new_message peer shown (Some verdict) st]
          = messages w ++ [m]) as Heq.
  { rewrite <- Hmsg. by destruct mismatch. }
  apply app_inv_head in Heq. injection Heq as <-.
  simpl in Htrue. injection Htrue as ->.
  destruct (Hyes eq_refl) as (-> & pk & Henv & Hver & _).
  split; [reflexivity |]. by exists pk.
Qed.

(** X3. An inbound payload never touches the connection: whatever arrives,
    the handler leaves the connected and connecting flags, the connection
    handle, the transport's objects, the target field, the keys and the
    endpoint as they were, sends nothing and connects to nothing; the
    status advisory is either kept or becomes the mismatch advisory. *)
Theorem incoming_keeps_connection (connection_peer : string) (data : JsValue)
    (st : Stamp) (w : World) :
  let w' := snd (handleIncoming connection_peer data st w) in
  isConnected w' = isConnected w /\
  isConnecting w' = isConnecting w /\
  connectionRef w' = connectionRef w /\
  connections w' = connections w /\
  targetPeerId w' = targetPeerId w /\
  keypair w' = keypair w /\
  peerReady w' = peerReady w /\
  peerRef w' = peerRef w /\
  sent (trace w') = sent (trace w) /\
  connects (trace w') = connects (trace w) /\
  (statusMessage w' = statusMessage w \/
   statusMessage w' = "Peer fingerprint mismatch.").
Proof.
  assert (data = JsNull \/ data = JsUndefined
          \/ (data <> JsNull /\ data <> JsUndefined)) as [-> | [-> | [Hn Hu]]].
  { destruct data; auto; right; right; by split. }
  { simpl. repeat split; auto. }
  { simpl. repeat split; auto. }
  destruct (handleIncoming_outcome connection_peer data st w Hn Hu)
    as (calls & mismatch & shown & verdict & Hpgp & Hout & _).
  rewrite Hout. cbv zeta.
  destruct mismatch; simpl;
    rewrite sent_app, connects_app, (sent_only_pgp calls Hpgp),
      (connects_only_pgp calls Hpgp), !app_nil_r;
    repeat split; auto.
Qed.

End Incoming.

(** ** What a send does when the world moved during its awaits *)

Section Outgoing.
Context {pgp : openpgp.Library} {json : JSON.Builtin}.

(** The three ways a run of handleSendMessage can end. *)
Lemma handleSendMessage_outcome (text : string) (st : Stamp) (w0 w1 : World) :
  let w' := snd (handleSendMessage_async text st w0 w1) in
  w' = w1
  \/ (exists calls,
        Forall (fun c => exists p, c = Pgp p) calls /\
        w' = w1 |> log calls |> setStatusMessage "Failed to sign message.")
  \/ (exists kp c sig,
        may_send w0 = true /\ keypair w0 = Some kp /\ connectionRef w1 = Some c /\
        w' = w1 |> log [Pgp CallReadPrivateKey; Pgp CallCreateMessage; Pgp CallSign]
                |> send c (WireMessage text sig (publicKeyArmored kp))
                |> addMessage me (JsString text) (Some true) st).
Proof.
  cbv zeta. unfold handleSendMessage_async.
  destruct (may_send w0) eqn:Hguard; [| by left].
  destruct (keypair w0) as [kp |] eqn:Hkp; [| by left].
  destruct (signing_outcome kp text)
    as [(cs & Hfail) | (sk & m & sig & Hsk & Hm & Hsig)].
  - right. left. exists cs. split; [by eapply signing_fails_only_pgp |].
    by rewrite (sign_and_send_fails kp text st w1 cs Hfail).
  - destruct (connectionRef w1) as [c |] eqn:Hc.
    + right. right. exists kp, c, sig. repeat split; try done.
      by rewrite (sign_and_send_sends kp text st w1 c sk m sig Hsk Hm Hsig Hc).
    + right. left. eexists. split; [| by rewrite
        (sign_and_send_no_connection kp text st w1 sk m sig Hsk Hm Hsig Hc)].
      repeat constructor; eauto.
Qed.

(** X4. A connection lost while signing is reported as a signing failure:
    when the guard passed at the call but no connection handle is held once
    the awaits are over, nothing is sent, no entry is appended, and the
    advisory reads "Failed to sign message.", whether or not signing
    succeeded. *)
Theorem send_after_connection_lost (text : string) (st : Stamp) (w0 w1 : World) :
  may_send w0 = true ->
  connectionRef w1 = None ->
  let w' := snd (handleSendMessage_async text st w0 w1) in
  sent (trace w') = sent (trace w1) /\
  messages w' = messages w1 /\
  statusMessage w' = "Failed to sign message.".
Proof.
  intros Hguard Hlost. cbv zeta. unfold handleSendMessage_async.
  rewrite Hguard. destruct (may_send_keypair w0 Hguard) as [kp ->].
  destruct (signing_outcome kp text)
    as [(cs & Hfail) | (sk & m & sig & Hsk & Hm & Hsig)].
  - rewrite (sign_and_send_fails kp text st w1 cs Hfail). simpl.
    rewrite sent_app, (sent_only_pgp cs), app_nil_r; [by repeat split |].
    by eapply signing_fails_only_pgp.
  - rewrite (sign_and_send_no_connection kp text st w1 sk m sig Hsk Hm Hsig Hlost).
    simpl. rewrite sent_app. simpl. rewrite app_nil_r. by repeat split.
Qed.


End Outgoing.

(** ** What every turn of the event loop keeps *)

Section Turns.
Context {pgp : openpgp.Library} {json : JSON.Builtin}.

(** The world an inbound payload leaves: the same, or one entry more. *)
Lemma handleIncoming_world (connection_peer : string) (data : JsValue)
    (st : Stamp) (w : World) :
  snd (handleIncoming connection_peer data st w) = w
  \/ exists calls (mismatch : bool) shown verdict,
       Forall (fun c => exists p, c = Pgp p) calls /\
       snd (handleIncoming connection_peer data st w)
       = w |> log calls
           |> (if mismatch then setStatusMessage "Peer fingerprint mismatch."
               else fun w => w)
           |> addMessage peer shown (Some verdict) st.
Proof.
  assert (data = JsNull \/ data = JsUndefined
          \/ (data <> JsNull /\ data <> JsUndefined)) as [-> | [-> | [Hn Hu]]].
  { destruct data; auto; right; right; by split. }
  { by left. }
  { by left. }
  right.
  destruct (handleIncoming_outcome connection_peer data st w Hn Hu)
    as (calls & mismatch & shown & verdict & Hpgp & Hout & _).
  exists calls, mismatch, shown, verdict. by rewrite Hout.
Qed.

Ltac plain_turn :=
  simpl;
  unfold handleConnect, handleDisconnect, peer_on_connection, peer_on_open,
    peer_on_error, close_current_if_open, attachConnection, connect, close,
    connection_on_open, connection_on_close, connection_on_error;
  repeat match goal with
         | |- context [if ?b then _ else _] => destruct b
         | |- context [match ?x with _ => _ end] => destruct x
         end;
  simpl; auto.

(** A turn appends at most one entry, and a well-formed one. *)
Lemma step_messages (w : World) (ev : Event) :
  messages (step w ev) = messages w
  \/ exists m, messages (step w ev) = messages w ++ [m] /\ entry_ok m.
Proof.
  destruct ev as [value | yields | | text st | | remote | error
                 | c0 | c0 data st | c0 | c0 error];
    try (left; plain_turn; fail).
  - simpl. destruct (_ || _); [by left |].
    unfold handleSendMessage.
    destruct (handleSendMessage_outcome (trim text) st w w)
      as [-> | [(calls & _ & ->) | (kp & c & sig & _ & _ & _ & ->)]];
      [by left | by left |].
    right. eexists. split; [reflexivity |].
    right. repeat split. by eexists.
  - simpl. destruct (connections w !! c0) as [k |]; [| by left].
    destruct (handleIncoming_world (DataConnection.peer k) data st w)
      as [-> | (calls & mismatch & shown & verdict & _ & ->)]; [by left |].
    right. eexists. split; [by destruct mismatch |].
    left. split; [reflexivity |]. by exists verdict.
Qed.

(** A turn changes neither the keys nor the endpoint nor the identifier. *)
Lemma step_identity (w : World) (ev : Event) :
  keypair (step w ev) = keypair w /\
  peerRef (step w ev) = peerRef w /\
  peerId (step w ev) = peerId w.
Proof.
  destruct ev as [value | yields | | text st | | remote | error
                 | c0 | c0 data st | c0 | c0 error];
    try (plain_turn; fail).
  - simpl. destruct (_ || _); [done |].
    unfold handleSendMessage.
    by destruct (handleSendMessage_outcome (trim text) st w w)
      as [-> | [(calls & _ & ->) | (kp & c & sig & _ & _ & _ & ->)]].
  - simpl. destruct (connections w !! c0) as [k |]; [| done].
    by destruct (handleIncoming_world (DataConnection.peer k) data st w)
      as [-> | (calls & [] & shown & verdict & _ & ->)].
Qed.

(** The connected and connecting flags are never both set by a turn. *)
Lemma step_flags (w : World) (ev : Event) :
  isConnected w && isConnecting w = false ->
  isConnected (step w ev) && isConnecting (step w ev) = false.
Proof.
  intros Hw.
  destruct ev as [value | yields | | text st | | remote | error
                 | c0 | c0 data st | c0 | c0 error];
    try (plain_turn; by rewrite ?andb_false_r; fail).
  - unfold step. destruct (isConnected w) eqn:Hc; simpl.
    { by rewrite Hc. }
    destruct (_ || _); [by rewrite Hc |].
    plain_turn; by rewrite ?Hc.
  - unfold step. destruct (isConnected w) eqn:Hc; [| by rewrite Hc].
    plain_turn.
  - simpl. destruct (_ || _); [done |].
    unfold handleSendMessage.
    by destruct (handleSendMessage_outcome (trim text) st w w)
      as [-> | [(calls & _ & ->) | (kp & c & sig & _ & _ & _ & ->)]].
  - plain_turn; by rewrite ?andb_false_r.
  - simpl. destruct (connections w !! c0) as [k |]; [| done].
    by destruct (handleIncoming_world (DataConnection.peer k) data st w)
      as [-> | (calls & [] & shown & verdict & _ & ->)].
Qed.

(** Without keys a turn sends nothing. *)
Lemma step_sent_no_keys (w : World) (ev : Event) :
  keypair w = None -> sent (trace (step w ev)) = sent (trace w).
Proof.
  intros Hkeys.
  destruct ev as [value | yields | | text st | | remote | error
                 | c0 | c0 data st | c0 | c0 error].
  4: { simpl. destruct (_ || _); [done |].
       unfold handleSendMessage.
       destruct (handleSendMessage_outcome (trim text) st w w)
         as [-> | [(calls & Hpgp & ->) | (kp & c & sig & _ & Hkp & _ & _)]];
         [done | |].
       - simpl. by rewrite sent_app, (sent_only_pgp calls Hpgp), app_nil_r.
       - rewrite Hkeys in Hkp. discriminate. }
  8: { simpl. destruct (connections w !! c0) as [k |]; [| done].
       destruct (handleIncoming_world (DataConnection.peer k) data st w)
         as [-> | (calls & mismatch & shown & verdict & Hpgp & ->)]; [done |].
       destruct mismatch; simpl;
         by rewrite sent_app, (sent_only_pgp calls Hpgp), app_nil_r. }
  all: plain_turn; rewrite ?sent_app; simpl; by rewrite ?app_nil_r.
Qed.

(** Without an endpoint a turn connects to nothing. *)
Lemma step_connects_no_endpoint (w : World) (ev : Event) :
  peerRef w = None -> connects (trace (step w ev)) = connects (trace w).
Proof.
  intros Hnone.
  destruct ev as [value | yields | | text st | | remote | error
                 | c0 | c0 data st | c0 | c0 error].
  2: { simpl. destruct (_ || _); [done |].
       unfold handleConnect. by rewrite Hnone. }
  3: { simpl. destruct (_ || _); [done |].
       unfold handleSendMessage.
       destruct (handleSendMessage_outcome (trim text) st w w)
         as [-> | [(calls & Hpgp & ->) | (kp & c & sig & _ & _ & _ & ->)]];
         [done | |].
       - simpl. by rewrite connects_app, (connects_only_pgp calls Hpgp), app_nil_r.
       - simpl. rewrite !connects_app. simpl. by rewrite !app_nil_r. }
  7: { simpl. destruct (connections w !! c0) as [k |]; [| done].
       destruct (handleIncoming_world (DataConnection.peer k) data st w)
         as [-> | (calls & mismatch & shown & verdict & Hpgp & ->)]; [done |].
       destruct mismatch; simpl;
         by rewrite connects_app, (connects_only_pgp calls Hpgp), app_nil_r. }
  all: plain_turn; rewrite ?connects_app; simpl; by rewrite ?app_nil_r.
Qed.

End Turns.

(** ** What holds along every run *)

Section Runs.
Context {pgp : openpgp.Library} {json : JSON.Builtin}.

Lemma run_identity (w : World) (evs : list Event) :
  keypair (run w evs) = keypair w /\
  peerRef (run w evs) = peerRef w /\
  peerId (run w evs) = peerId w.
Proof.
  revert w. induction evs as [| ev evs IH]; intros w; [done |].
  simpl. destruct (IH (step w ev)) as (-> & -> & ->). apply step_identity.
Qed.

Lemma run_sent_no_keys (w : World) (evs : list Event) :
  keypair w = None -> sent (trace (run w evs)) = sent (trace w).
Proof.
  revert w. induction evs as [| ev evs IH]; intros w Hkeys; [done |].
  simpl. rewrite IH.
  - by apply step_sent_no_keys.
  - by rewrite (proj1 (step_identity w ev)).
Qed.

Lemma run_connects_no_endpoint (w : World) (evs : list Event) :
  peerRef w = None -> connects (trace (run w evs)) = connects (trace w).
Proof.
  revert w. induction evs as [| ev evs IH]; intros w Hnone; [done |].
  simpl. rewrite IH.
  - by apply step_connects_no_endpoint.
  - by rewrite (proj1 (proj2 (step_identity w ev))).
Qed.

(** X6. The chat log is append-only and its entries are well formed:
    whatever events follow, the log is the log before plus at most one entry
    per event, and each new entry is either from the peer with a verdict or
    the user's own text stamped [verified: true]; [verified] is never left
    absent and no entry is removed or rewritten. *)
Theorem log_append_only (w : World) (evs : list Event) :
  exists added,
    messages (run w evs) = messages w ++ added /\
    length added <= length evs /\
    Forall entry_ok added.
Proof.
  revert w. induction evs as [| ev evs IH]; intros w.
  { exists []. by rewrite app_nil_r. }
  simpl. destruct (IH (step w ev)) as (added & -> & Hlen & Hok).
  destruct (step_messages w ev) as [-> | (m & -> & Hm)].
  - exists added. repeat split; [lia | done].
  - exists (m :: added). rewrite <- app_assoc. repeat split; [simpl; lia |].
    by constructor.
Qed.

(** X7. Connected and connecting exclude each other: from a world in which
    the two flags are not both set, no sequence of user and transport
    events reaches one in which they are. *)
Theorem flags_never_both (w : World) (evs : list Event) :
  isConnected w && isConnecting w = false ->
  isConnected (run w evs) && isConnecting (run w evs) = false.
Proof.
  revert w. induction evs as [| ev evs IH]; intros w Hw; [done |].
  simpl. apply IH. by apply step_flags.
Qed.

(** X8. A successful start-up is the mounted world: when key generation
    gives a keypair whose public key parses and has a non-empty fingerprint,
    the two effects leave the keypair stored, the fingerprint as the peer
    id, the endpoint constructed under that id and not yet ready, an empty
    advisory, and one call to openpgp's readKey. *)
Theorem startup_reaches_mounted (kp : StoredKeypair) (pk : openpgp.PublicKey) :
  openpgp.readKey (JsString (publicKeyArmored kp)) = inr pk ->
  openpgp.getFingerprint pk <> "" ->
  startup false (inr kp)
  = log [Pgp CallReadKey] (mounted (openpgp.getFingerprint pk) kp).
Proof.
  intros Hpk Hfp. unfold startup, initKeys.
  rewrite bind_update.
  erewrite try_catch_returns; cycle 1.
  { erewrite eval_returns by reflexivity. returns Hpk. reflexivity. }
  unfold peer_effect. simpl.
  apply String.eqb_neq in Hfp. by rewrite Hfp.
Qed.

(** X9. A failed key set-up leaves the app inert: when key generation
    throws, or the generated public key does not parse, the advisory reads
    "Key setup failed.", no keypair is stored and no endpoint is
    constructed; and whatever events follow, nothing is ever sent and
    [peer.connect] is never called. *)
Theorem key_setup_failure_is_inert (generated : Exn + StoredKeypair)
    (evs : list Event) :
  ((exists e, generated = inl e) \/
   (exists kp e, generated = inr kp /\
                 openpgp.readKey (JsString (publicKeyArmored kp)) = inl e)) ->
  statusMessage (startup false generated) = "Key setup failed." /\
  keypair (startup false generated) = None /\
  peerRef (startup false generated) = None /\
  sent (trace (run (startup false generated) evs)) = [] /\
  connects (trace (run (startup false generated) evs)) = [].
Proof.
  intros Hfail.
  assert (startup false generated
          = setStatusMessage "Key setup failed."
              (setStatusMessage "Generating keys..." initial)
          \/ startup false generated
             = setStatusMessage "Key setup failed."
                 (log [Pgp CallReadKey]
                    (setStatusMessage "Generating keys..." initial))) as Hw.
  { unfold startup, initKeys. rewrite bind_update.
    destruct Hfail as [[e ->] | (kp & e & -> & Hpk)].
    - left. by erewrite try_catch_throws by reflexivity.
    - right. erewrite try_catch_throws; cycle 1.
      { erewrite eval_returns by reflexivity.
        by erewrite call_throws by exact Hpk. }
      reflexivity. }
  destruct Hw as [-> | ->].
  - rewrite run_sent_no_keys, run_connects_no_endpoint by reflexivity.
    by repeat split.
  - rewrite run_sent_no_keys, run_connects_no_endpoint by reflexivity.
    by repeat split.
Qed.

End Runs.

(** ** The user's controls and the transport's events *)

Section Controls.
Context {pgp : openpgp.Library} {json : JSON.Builtin}.




(** X13. After the user disconnects, submitting does nothing: from a
    connected app, a click on Disconnect calls [close()] on the held
    connection and clears both flags, and a submit that follows leaves the
    world as the click left it. *)
Theorem disconnect_then_submit_does_nothing (w : World) (c : nat)
    (text : string) (st : Stamp) :
  isConnected w = true ->
  connectionRef w = Some c ->
  let w' := step w Click_disconnect in
  trace w' = trace w ++ [Close c] /\
  isConnected w' = false /\
  isConnecting w' = false /\
  is_open w' c = false /\
  step w' (Submit text st) = w'.
Proof.
  intros Hconn Href. cbv zeta. simpl. rewrite Hconn.
  unfold handleDisconnect. rewrite Href. unfold close, is_open. simpl.
  rewrite list_lookup_alter_eq, orb_true_r.
  destruct (connections w !! c); by repeat split.
Qed.

(** X14. An event of another connection clears the handle of the live one:
    the close and error handlers do not look at which connection raised
    them.  When the held connection [c'] is open and a close or an error is
    raised on a different connection [c], the handle is cleared and the
    app shows not connected, though [c'] is still open and [close()] was
    not called on it; what then arrives on [c'] is still shown, and sending
    is off. *)
Theorem stale_event_clears_live_handle (w : World) (c c' : nat)
    (error : TransportError) (ev : Event) (s : string) (st : Stamp) :
  connectionRef w = Some c' ->
  c <> c' ->
  is_Some (connections w !! c) ->
  is_open w c' = true ->
  ev = Connection_close c \/ ev = Connection_error c error ->
  let w' := step w ev in
  connectionRef w' = None /\
  isConnected w' = false /\
  is_open w' c' = true /\
  trace w' = trace w /\
  may_send w' = false /\
  messages (step w' (Connection_data c' (JsString s) st))
  = messages w' ++ [new_message peer (JsString s) (Some false) st].
Proof.
  intros Href Hne [k Hk] Hopen Hev. cbv zeta.
  destruct (is_open_lookup w c' Hopen) as (k' & Hk' & Hko').
  destruct Hev as [-> | ->]; simpl; rewrite Hk; simpl.
  - unfold is_open. simpl. rewrite list_lookup_alter_ne, Hk', Hko' by exact Hne.
    by repeat split.
  - unfold is_open. simpl. rewrite Hk', Hko'. by repeat split.
Qed.

(** X15. While connecting, nothing the user does and nothing the endpoint
    reports ends it: from a world that is connecting and not connected, any
    sequence of typing, clicks, submits, endpoint-open and endpoint-error
    events leaves it connecting and not connected, with the same connection
    handle and not one call made to the transport or to openpgp. *)
Theorem connecting_locks_user (w : World) (evs : list Event) :
  isConnecting w = true ->
  isConnected w = false ->
  forallb not_from_connection evs = true ->
  isConnecting (run w evs) = true /\
  isConnected (run w evs) = false /\
  connectionRef (run w evs) = connectionRef w /\
  trace (run w evs) = trace w.
Proof.
  revert w. induction evs as [| ev evs IH]; intros w Hing Hed Hevs; [done |].
  simpl in Hevs. apply andb_true_iff in Hevs as [Hev Hevs].
  assert (isConnecting (step w ev) = true /\ isConnected (step w ev) = false /\
          connectionRef (step w ev) = connectionRef w /\
          trace (step w ev) = trace w) as (Hing' & Hed' & Href' & Htr').
  { destruct ev; try discriminate; simpl; rewrite ?Hing, ?Hed, ?orb_true_r;
      simpl; try done.
    by destruct (_ || _). }
  simpl. destruct (IH (step w ev) Hing' Hed' Hevs) as (-> & -> & -> & ->).
  by repeat split.
Qed.


End Controls.

(** ** Further concrete runs *)

Section MoreExamples.
#[local] Existing Instance Sample.pgp.
#[local] Existing Instance Sample.json.

(** X2 on a run: bob's app shows alice's "hello" verified. *)
Lemma verified_entry_sound_witness :
  field Sample.hello "text" = JsString "hello" /\
  exists pk,
    envelope Sample.hello (field Sample.hello "text")
      (field Sample.hello "signature") (field Sample.hello "publicKey") /\
    signature_verifies (field Sample.hello "text")
      (field Sample.hello "signature") (field Sample.hello "publicKey") pk.
Proof.
  split; [reflexivity |].
  refine (proj2 (verified_entry_sound "fp-alice" Sample.hello Sample.noon
                   (Sample.app "bob" "alice" true)
                   (snd (handleIncoming "fp-alice" Sample.hello Sample.noon
                           (Sample.app "bob" "alice" true)))
                   (Normal tt)
                   (new_message peer (JsString "hello") (Some true) Sample.noon)
                   _ _ _)); reflexivity.
Defined.

(** X4 on a run: alice's connection closes while her "hello" is being
    signed. *)
Lemma send_after_connection_lost_witness :
  statusMessage
    (snd (handleSendMessage_async "hello" Sample.noon
            (Sample.app "alice" "bob" true)
            (connection_on_close (Sample.app "alice" "bob" true))))
  = "Failed to sign message.".
Proof.
  refine (proj2 (proj2 (send_after_connection_lost "hello" Sample.noon
                          (Sample.app "alice" "bob" true)
                          (connection_on_close (Sample.app "alice" "bob" true))
                          _ _))); reflexivity.
Defined.


(** X7 on a run: the crossed offers. *)
Lemma flags_never_both_witness :
  isConnected (run (mounted "fp-alice" (Sample.keys "alice")) Sample.crossed_offers)
  && isConnecting (run (mounted "fp-alice" (Sample.keys "alice")) Sample.crossed_offers)
  = false.
Proof. apply flags_never_both. reflexivity. Defined.

(** X8 on a run: alice's keys. *)
Lemma startup_reaches_mounted_witness :
  startup false (inr (Sample.keys "alice"))
  = log [Pgp CallReadKey] (mounted "fp-alice" (Sample.keys "alice")).
Proof.
  apply (startup_reaches_mounted (pgp := Sample.pgp) (Sample.keys "alice") "alice").
  - reflexivity.
  - discriminate.
Defined.

(** X9 on a run: key generation throws; an offer still comes in and opens,
    and the user submits a text. *)
Lemma key_setup_failure_is_inert_witness :
  sent (trace (run (startup false (inl (PgpError "Error generating keypair")))
                 [Peer_connection "fp-bob"; Connection_open 0;
                  Submit "hello" Sample.noon]))
  = [].
Proof.
  refine (proj1 (proj2 (proj2 (proj2
           (key_setup_failure_is_inert (inl (PgpError "Error generating keypair"))
              [Peer_connection "fp-bob"; Connection_open 0;
               Submit "hello" Sample.noon] _))))).
  left. by eexists.
Defined.



(** X13 on a run: alice disconnects from bob, then submits. *)
Lemma disconnect_then_submit_does_nothing_witness :
  step (step (Sample.app "alice" "bob" true) Click_disconnect)
    (Submit "hello" Sample.noon)
  = step (Sample.app "alice" "bob" true) Click_disconnect.
Proof.
  refine (proj2 (proj2 (proj2 (proj2
           (disconnect_then_submit_does_nothing (Sample.app "alice" "bob" true) 0
              "hello" Sample.noon _ _))))); reflexivity.
Defined.

(** X14 on a run: after the crossed offers alice holds carol's connection;
    bob's connection then reports an error. *)
Lemma stale_event_clears_live_handle_witness :
  connectionRef
    (step (run (mounted "fp-alice" (Sample.keys "alice")) Sample.crossed_offers)
       (Connection_error 0 Sample.endpoint_error))
  = None
  /\ is_open
       (step (run (mounted "fp-alice" (Sample.keys "alice")) Sample.crossed_offers)
          (Connection_error 0 Sample.endpoint_error)) 1
     = true.
Proof.
  pose proof (stale_event_clears_live_handle
                (run (mounted "fp-alice" (Sample.keys "alice")) Sample.crossed_offers)
                0 1 Sample.endpoint_error
                (Connection_error 0 Sample.endpoint_error) "hi" Sample.noon) as H.
  cbv zeta in H. destruct H as (Href & _ & Hopen & _).
  - reflexivity.
  - lia.
  - by eexists.
  - reflexivity.
  - by right.
  - by split.
Defined.

(** X15 on a run: alice's connection to bob is pending; she clicks, submits
    and retypes, and the endpoint reports an error. *)
Lemma connecting_locks_user_witness :
  isConnecting
    (run (Sample.app "alice" "bob" false)
       [Click_connect true; Click_disconnect; Submit "hello" Sample.noon;
        Peer_error Sample.endpoint_error; Type_target "fp-carol"])
  = true
  /\ trace
       (run (Sample.app "alice" "bob" false)
          [Click_connect true; Click_disconnect; Submit "hello" Sample.noon;
           Peer_error Sample.endpoint_error; Type_target "fp-carol"])
     = [].
Proof.
  pose proof (connecting_locks_user (Sample.app "alice" "bob" false)
                [Click_connect true; Click_disconnect; Submit "hello" Sample.noon;
                 Peer_error Sample.endpoint_error; Type_target "fp-carol"]
                eq_refl eq_refl eq_refl) as (Hing & _ & _ & Htrace).
  by split.
Defined.


End MoreExamples.

(** ** What the user is shown *)

Section Shown.
Context {pgp : openpgp.Library} {json : JSON.Builtin}.

(** X17. Without an identifier every control is dead: while the peer id is
    empty (keys not yet set up, or set-up failed) and the app is not
    connected, no sequence of typing, clicks and submits changes anything. *)
Theorem controls_dead_without_identifier (w : World) (evs : list Event) :
  peerId w = "" ->
  isConnected w = false ->
  forallb from_user evs = true ->
  run w evs = w.
Proof.
  intros Hid Hconn. induction evs as [| ev evs IH]; [done |].
  intros [Hev Hevs]%andb_true_iff. simpl.
  assert (step w ev = w) as ->; [| by apply IH].
  destruct ev; try discriminate; simpl; rewrite ?Hid, ?Hconn, ?orb_true_r; done.
Qed.

(** X18. The label can say Connected while sending is off: the open
    handler does not look at which connection opened.  When the held
    connection [c'] is not open and another connection [c] opens, the label
    reads "Connected to" the target field and the composer is enabled, but
    a send is a no-op, since the held connection is not open. *)
Theorem stale_open_shows_connected (w : World) (c c' : nat) (text : string)
    (st : Stamp) :
  connectionRef w = Some c' ->
  c <> c' ->
  is_Some (connections w !! c) ->
  is_open w c' = false ->
  let w' := step w (Connection_open c) in
  statusLabel w' = "Connected to " +:+ targetPeerId w /\
  isConnected w' = true /\
  may_send w' = false /\
  handleSendMessage text st w' = (Normal tt, w').
Proof.
  intros Href Hne [k Hk] Hclosed. cbv zeta. simpl. rewrite Hk.
  assert (may_send (connection_on_open
            (setConnections (alter DataConnection.opened c (connections w)) w))
          = false) as Hguard.
  { unfold may_send, is_open. simpl. rewrite Href.
    rewrite list_lookup_alter_ne by exact Hne.
    unfold is_open in Hclosed. by rewrite Hclosed. }
  repeat split; [exact Hguard |].
  unfold handleSendMessage, handleSendMessage_async. by rewrite Hguard.
Qed.

End Shown.

Section ShownExamples.
#[local] Existing Instance Sample.pgp.
#[local] Existing Instance Sample.json.

(** X17 on a run: key generation failed, and the user tries everything. *)
Lemma controls_dead_without_identifier_witness :
  run (startup false (inl (PgpError "Error generating keypair")))
    [Type_target "fp-bob"; Click_connect true; Submit "hello" Sample.noon;
     Click_disconnect]
  = startup false (inl (PgpError "Error generating keypair")).
Proof.
  apply controls_dead_without_identifier; reflexivity.
Defined.

(** X18 on a run: alice's connection to bob is pending when carol's offer
    replaces it; bob's connection then opens. *)
Lemma stale_open_shows_connected_witness :
  statusLabel
    (run (mounted "fp-alice" (Sample.keys "alice"))
       [Peer_open; Type_target "fp-bob"; Click_connect true;
        Peer_connection "fp-carol"; Connection_open 0])
  = "Connected to fp-carol"
  /\ may_send
       (run (mounted "fp-alice" (Sample.keys "alice"))
          [Peer_open; Type_target "fp-bob"; Click_connect true;
           Peer_connection "fp-carol"; Connection_open 0])
     = false.
Proof.
  pose proof (stale_open_shows_connected
                (run (mounted "fp-alice" (Sample.keys "alice"))
                   [Peer_open; Type_target "fp-bob"; Click_connect true;
                    Peer_connection "fp-carol"])
                0 1 "hello" Sample.noon) as H.
  cbv zeta in H. destruct H as (Hlabel & _ & Hguard & _).
  - reflexivity.
  - lia.
  - by eexists.
  - reflexivity.
  - split; [exact Hlabel | exact Hguard].
Defined.

End ShownExamples.
